(** * Scheduled ingestion jobs and caches of splatoon-stats-api

    A shallow embedding of [index.js] (the three cron jobs) and of the
    caching code of the web API, with the properties of the ingestion
    pipeline stated over it.

    Time is a logical clock in milliseconds since the epoch.  A promise is
    the pair of the instant at which it settles and of its settled outcome;
    every call to an external collaborator (remote API client, database,
    notification sink) is recorded as a time-stamped event, and its reply
    (latency and outcome) is given by an environment record. *)

From Stdlib Require Import ZArith String Ascii List Lia Bool.
From stdpp Require Import base gmap strings list pretty.

Local Open Scope string_scope.
Local Open Scope list_scope.
Local Open Scope Z_scope.

(** ** Errors, settled outcomes and promises *)

(** [src/errors] exports the class [NintendoAPIError]; everything else that
    can be thrown is an ordinary error for the jobs. *)
Inductive JsError : Type :=
| NintendoAPIError (statusCode : Z) (message : string)
| OtherError (message : string).

(** [err instanceof NintendoAPIError] *)
Definition instanceof_NintendoAPIError (err : JsError) : bool :=
  match err with
  | NintendoAPIError _ _ => true
  | OtherError _ => false
  end.

Definition time : Type := Z.

Inductive Settled (A : Type) : Type :=
| Fulfilled (v : A)
| Rejected (err : JsError).
Arguments Fulfilled {A} v.
Arguments Rejected {A} err.

Definition isFulfilled {A} (s : Settled A) : bool :=
  match s with Fulfilled _ => true | Rejected _ => false end.

Record Promise (A : Type) : Type := MkPromise {
  settledAt : time;
  outcome : Settled A
}.
Arguments MkPromise {A} settledAt outcome.
Arguments settledAt {A} p.
Arguments outcome {A} p.

(** What a collaborator answers to a call: after [latency] milliseconds the
    returned promise settles with [result]. *)
Record Reply (A : Type) : Type := MkReply {
  latency : N;
  result : Settled A
}.
Arguments MkReply {A} latency result.
Arguments latency {A} r.
Arguments result {A} r.

Definition started {A} (t : time) (r : Reply A) : Promise A :=
  {| settledAt := t + Z.of_N (latency r); outcome := result r |}.

(** Rows of [queryUnfetchedSplatfests]: [{ region, splatfest_id }]. *)
Record Splatfest : Type := MkSplatfest {
  region : string;
  splatfest_id : Z
}.

(** ** Calendar: the UTC fields of an instant, and moment's month arithmetic

    [Date] and [moment] are libraries; their calendar functions are written
    out here after ECMAScript's definitions of [Day], [DayFromYear],
    [YearFromTime], [MonthFromTime] and [DateFromTime], and after moment's
    [daysInMonth] and [setMonth]. *)

Definition msPerDay : Z := 86400000.

Definition Day (t : time) : Z := t / msPerDay.

Definition DayFromYear (y : Z) : Z :=
  365 * (y - 1970) + (y - 1969) / 4 - (y - 1901) / 100 + (y - 1601) / 400.

(** The largest [y] with [DayFromYear y <= Day t]: 400 years are 146097
    days, so the quotient below is at most one year off. *)
Definition YearFromTime (t : time) : Z :=
  let d := Day t in
  let y0 := 1970 + d * 400 / 146097 in
  if DayFromYear (y0 + 1) <=? d then y0 + 1
  else if DayFromYear y0 <=? d then y0
  else y0 - 1.

Definition isLeapYear (y : Z) : bool :=
  ((y mod 4 =? 0) && negb (y mod 100 =? 0)) || (y mod 400 =? 0).

Definition InLeapYear (t : time) : Z :=
  if isLeapYear (YearFromTime t) then 1 else 0.

Definition DayWithinYear (t : time) : Z := Day t - DayFromYear (YearFromTime t).

Definition MonthFromTime (t : time) : Z :=
  let d := DayWithinYear t in
  let leap := InLeapYear t in
  if d <? 31 then 0
  else if d <? 59 + leap then 1
  else if d <? 90 + leap then 2
  else if d <? 120 + leap then 3
  else if d <? 151 + leap then 4
  else if d <? 181 + leap then 5
  else if d <? 212 + leap then 6
  else if d <? 243 + leap then 7
  else if d <? 273 + leap then 8
  else if d <? 304 + leap then 9
  else if d <? 334 + leap then 10
  else 11.

Definition DateFromTime (t : time) : Z :=
  let d := DayWithinYear t in
  let leap := InLeapYear t in
  match MonthFromTime t with
  | 0 => d + 1
  | 1 => d - 30
  | 2 => d - 58 - leap
  | 3 => d - 89 - leap
  | 4 => d - 119 - leap
  | 5 => d - 150 - leap
  | 6 => d - 180 - leap
  | 7 => d - 211 - leap
  | 8 => d - 242 - leap
  | 9 => d - 272 - leap
  | 10 => d - 303 - leap
  | _ => d - 333 - leap
  end.

(** A moment in UTC mode, by its calendar fields ([month] is 0-based, as
    [moment#month()] returns it). *)
Record Moment : Type := MkMoment {
  year : Z;
  month : Z;
  date : Z;
  msOfDay : Z
}.

(** [moment(t).utc()] *)
Definition moment_utc (t : time) : Moment :=
  {| year := YearFromTime t;
     month := MonthFromTime t;
     date := DateFromTime t;
     msOfDay := t mod msPerDay |}.

(** moment's [daysInMonth(year, month)], which accepts a month outside 0..11. *)
Definition daysInMonth (y m : Z) : Z :=
  let modMonth := m mod 12 in
  let y' := y + (m - modMonth) / 12 in
  if modMonth =? 1 then (if isLeapYear y' then 29 else 28)
  else 31 - (modMonth mod 7) mod 2.

(** [mom.subtract(n, 'month')]: moment's [setMonth(mom, mom.month() - n)]
    clamps the day of the month and calls [Date#setUTCMonth], which carries
    a month outside 0..11 into the year. *)
Definition subtract_months (n : Z) (mom : Moment) : Moment :=
  let value := month mom - n in
  let dayOfMonth := Z.min (date mom) (daysInMonth (year mom) value) in
  {| year := year mom + value / 12;
     month := value mod 12;
     date := dayOfMonth;
     msOfDay := msOfDay mom |}.

(** moment's [zeroFill(number, targetLength)]: sign, zeros up to the target
    length, decimal digits of the absolute value. *)
Fixpoint zeros (n : nat) : string :=
  match n with
  | O => EmptyString
  | S n' => String "0"%char (zeros n')
  end.

Definition zeroFill (number : Z) (targetLength : nat) : string :=
  let absNumber := pretty (Z.abs_N number) in
  let zerosToFill := (targetLength - String.length absNumber)%nat in
  (if 0 <=? number then EmptyString else "-") +:+ zeros zerosToFill +:+ absNumber.

(** ** Observable events *)

Section Ingestion.

Context {Val : Type}.

(** Console lines; the template strings of [index.js] are kept as
    constructors carrying the interpolated values. *)
Inductive Message : Type :=
| MsgCronCompleted (at_ : time)
    (* `Successfully completed cron job at ${moment().format(...)}.` *)
| MsgErr (err : JsError)
    (* console.log(err) / console.error(err) *)
| MsgDailyUnfetched (n : nat)
    (* `[Daily job] There are ${n} unfetched Splatfest(s).` *)
| MsgDailyFetching (region : string) (splatfest_id : Z)
    (* `[Daily job] Fetching Splatfest ranking for ${region} ${splatfest_id}.` *)
| MsgDailyDone
    (* '[Daily job] Done.' *)
| MsgDailyCompleted (at_ : time)
    (* `[Daily job] Successfully completed daily cron job on ${...}.` *)
| MsgXFetched (year month : Z)
    (* `Successfully fetched X Ranking for ${year}/${month}.` *)
| MsgXFailed (year month : Z).
    (* `Failed to fetch X Ranking for ${year}/${month}.` *)

Inductive Event : Type :=
| ConsoleLog (m : Message)
| ConsoleError (m : Message)
| FetchStageRotations
| FetchLeagueRanking (leagueId : string)
| TweetLeagueUpdates (rankings : list Val)
| FetchSplatfestSchedules
| QueryUnfetchedSplatfests
| FetchSplatfestRanking (region : string) (splatfest_id : Z)
| Wait (ms : Z)
| FetchXRanking (year month : Z).

Definition Trace : Type := list (time * Event).

(** ** Running code on the event loop

    [Async A] is a piece of code started at some instant: it emits events,
    ends at [finishedAt] and completes normally or by a throw.  An [async]
    function body, a [.then] callback and a synchronous cron callback are
    all of this shape. *)
Record Run (A : Type) : Type := MkRun {
  events : Trace;
  finishedAt : time;
  completion : Settled A
}.
Arguments MkRun {A} events finishedAt completion.
Arguments events {A} r.
Arguments finishedAt {A} r.
Arguments completion {A} r.

Definition Async (A : Type) : Type := time -> Run A.

#[global] Instance Async_ret : MRet Async := fun A v t =>
  {| events := []; finishedAt := t; completion := Fulfilled v |}.

#[global] Instance Async_bind : MBind Async := fun A B k m t =>
  let r := m t in
  match completion r with
  | Fulfilled v =>
      let r' := k v (finishedAt r) in
      {| events := events r ++ events r';
         finishedAt := finishedAt r';
         completion := completion r' |}
  | Rejected err =>
      {| events := events r; finishedAt := finishedAt r; completion := Rejected err |}
  end.

(** [new Date()] / [moment()]: reading the clock. *)
Definition clock : Async time := fun t =>
  {| events := []; finishedAt := t; completion := Fulfilled t |}.

Definition emit (ev : Event) : Async unit := fun t =>
  {| events := [(t, ev)]; finishedAt := t; completion := Fulfilled tt |}.

Definition console_log (m : Message) : Async unit := emit (ConsoleLog m).
Definition console_error (m : Message) : Async unit := emit (ConsoleError m).

(** Calling a collaborator: the call is issued now and a pending promise
    comes back at once. *)
Definition call {A} (ev : Event) (f : time -> Reply A) : Async (Promise A) := fun t =>
  {| events := [(t, ev)]; finishedAt := t; completion := Fulfilled (started t (f t)) |}.

(** [await p]: resume when [p] has settled, with its value or its throw. *)
Definition await {A} (p : Promise A) : Async A := fun t =>
  {| events := []; finishedAt := Z.max t (settledAt p); completion := outcome p |}.

(** The promise an [async] function (or a callback) started at [t] returns. *)
Definition promiseOf {A} (r : Run A) : Promise A :=
  {| settledAt := finishedAt r; outcome := completion r |}.

(** [p.then(cb)]: registering is immediate; [cb] runs when [p] fulfils and
    the new promise follows what [cb] returns; a rejection passes through. *)
Definition then_ {A B} (p : Promise A) (cb : A -> Async B) : Async (Promise B) := fun t =>
  match outcome p with
  | Fulfilled v =>
      let r := cb v (settledAt p) in
      {| events := events r; finishedAt := t; completion := Fulfilled (promiseOf r) |}
  | Rejected err =>
      {| events := []; finishedAt := t;
         completion := Fulfilled {| settledAt := settledAt p; outcome := Rejected err |} |}
  end.

(** [p.catch(cb)] *)
Definition catch_ {A} (p : Promise A) (cb : JsError -> Async A) : Async (Promise A) := fun t =>
  match outcome p with
  | Fulfilled v =>
      {| events := []; finishedAt := t; completion := Fulfilled p |}
  | Rejected err =>
      let r := cb err (settledAt p) in
      {| events := events r; finishedAt := t; completion := Fulfilled (promiseOf r) |}
  end.

(** [Promise.all]: rejects with the rejection that settles first (the
    lower index on a tie), otherwise fulfils with all values once the last
    one has settled. *)
Fixpoint earliestRejection {A} (ps : list (Promise A)) : option (time * JsError) :=
  match ps with
  | [] => None
  | p :: rest =>
      match outcome p, earliestRejection rest with
      | Rejected err, Some (s, err') =>
          if settledAt p <=? s then Some (settledAt p, err) else Some (s, err')
      | Rejected err, None => Some (settledAt p, err)
      | Fulfilled _, r => r
      end
  end.

Fixpoint fulfilledValues {A} (ps : list (Promise A)) : list A :=
  match ps with
  | [] => []
  | p :: rest =>
      match outcome p with
      | Fulfilled v => v :: fulfilledValues rest
      | Rejected _ => fulfilledValues rest
      end
  end.

Definition latestSettlement {A} (t : time) (ps : list (Promise A)) : time :=
  fold_right Z.max t (map settledAt ps).

Definition Promise_all {A} (ps : list (Promise A)) : Async (Promise (list A)) := fun t =>
  {| events := []; finishedAt := t;
     completion := Fulfilled
       match earliestRejection ps with
       | Some (s, err) => {| settledAt := s; outcome := Rejected err |}
       | None => {| settledAt := latestSettlement t ps; outcome := Fulfilled (fulfilledValues ps) |}
       end |}.

(** [ids.map(f)] for a callback that issues calls. *)
Fixpoint mapA {A B} (f : A -> Async B) (l : list A) : Async (list B) :=
  match l with
  | [] => mret []
  | x :: rest => y ← f x; ys ← mapA f rest; mret (y :: ys)
  end.

(** ** The collaborators of [index.js]

    [src/cron-job], [src/query], [src/util] and [config] are outside this
    development: their behaviour is whatever the environment says. *)
Record Collaborators : Type := MkCollaborators {
  calculateLeagueDate : Z -> string;
  fetchStageRotations : time -> Reply Val;
  fetchLeagueRanking : string -> time -> Reply Val;
  tweetLeagueUpdates : list Val -> time -> Reply Val;
  fetchSplatfestSchedules : time -> Reply Val;
  queryUnfetchedSplatfests : time -> Reply (list Splatfest);
  fetchSplatfestRanking : string -> Z -> time -> Reply Val;
  fetchXRanking : Z -> Z -> time -> Reply Val;
  timerLag : Z -> time -> N;
  DO_NOT_FETCH_SPLATFEST : bool
}.

Variable C : Collaborators.

(** Modelled from the spec: [wait] of [src/util] is not in the sources; the
    spec calls [wait(60000)] "a fixed minimum delay (60 seconds)": the
    promise fulfils [ms] milliseconds after the call, or later when the
    timer fires late. *)
Definition wait (ms : Z) : time -> Reply unit := fun t =>
  {| latency := Z.to_N ms + timerLag C ms t; result := Fulfilled tt |}.

(** ** Periodic job: [new CronJob('20 0-22/2 * * *', () => { ... })] *)

Definition fetchLeagueRankings (leagueDate : string) : Async (Promise (list Val)) :=
  tasks ← mapA (fun leagueId => call (FetchLeagueRanking leagueId) (fetchLeagueRanking C leagueId))
               [leagueDate +:+ "T"; leagueDate +:+ "P"];
  Promise_all tasks.

(** [fetchLeagueRankings().then(tweetLeagueUpdates)] *)
Definition rankingsThenTweet (leagueDate : string) : Async (Promise Val) :=
  rankings ← fetchLeagueRankings leagueDate;
  then_ rankings (fun rs => tw ← call (TweetLeagueUpdates rs) (tweetLeagueUpdates C rs); await tw).

(** [Promise.all([fetchStageRotations(), fetchLeagueRankings().then(tweetLeagueUpdates)])] *)
Definition periodicCombined : Async (Promise (list Val)) :=
  now ← clock;
  let leagueDate := calculateLeagueDate C (now - 120 * 60 * 1000) in
  rotations ← call FetchStageRotations (fetchStageRotations C);
  notified ← rankingsThenTweet leagueDate;
  Promise_all [rotations; notified].

(** The callback itself returns nothing; the promise at the end of its
    chain is returned here so that its outcome can be talked about. *)
Definition periodicJob : Async (Promise unit) :=
  combined ← periodicCombined;
  reported ← then_ combined (fun _ => at_ ← clock; console_log (MsgCronCompleted at_));
  catch_ reported (fun err =>
    if instanceof_NintendoAPIError err
    then console_log (MsgErr err)
    else console_error (MsgErr err)).

(** ** Daily job: [new CronJob('23 0 * * *', async () => { ... })] *)

(** The [for ... of] loop over the unfetched Splatfests. *)
Fixpoint drainBacklog (unfetchedSplatfests : list Splatfest) : Async unit :=
  match unfetchedSplatfests with
  | [] => mret tt
  | sf :: rest =>
      console_log (MsgDailyFetching (region sf) (splatfest_id sf));;
      fetching ← call (FetchSplatfestRanking (region sf) (splatfest_id sf))
                      (fetchSplatfestRanking C (region sf) (splatfest_id sf));
      await fetching;;
      console_log MsgDailyDone;;
      timer ← call (Wait 60000) (wait 60000);
      await timer;;
      drainBacklog rest
  end.

Definition dailyJob : Async unit :=
  if DO_NOT_FETCH_SPLATFEST C then mret tt
  else
    syncing ← call FetchSplatfestSchedules (fetchSplatfestSchedules C);
    await syncing;;
    querying ← call QueryUnfetchedSplatfests (queryUnfetchedSplatfests C);
    unfetchedSplatfests ← await querying;
    (if (0 <? length unfetchedSplatfests)%nat
     then console_log (MsgDailyUnfetched (length unfetchedSplatfests));;
          drainBacklog unfetchedSplatfests
     else mret tt);;
    at_ ← clock;
    console_log (MsgDailyCompleted at_).

(** ** Monthly job: [new CronJob('20 9 * * *', () => { ... })] *)

Definition monthlyJob : Async (Promise unit) :=
  now ← clock;
  let lastMonth := subtract_months 1 (moment_utc now) in
  let year := year lastMonth in
  let month := month lastMonth + 1 in
  fetching ← call (FetchXRanking year month) (fetchXRanking C year month);
  reported ← then_ fetching (fun _ => console_log (MsgXFetched year month));
  catch_ reported (fun err =>
    console_log (MsgXFailed year month);;
    console_error (MsgErr err)).

End Ingestion.

Arguments Event Val : clear implicits.
Arguments Trace Val : clear implicits.
Arguments Run Val A : clear implicits.
Arguments MkRun {Val A} events finishedAt completion.
Arguments events {Val A} r.
Arguments finishedAt {Val A} r.
Arguments completion {Val A} r.
Arguments Async Val A : clear implicits.
Arguments Collaborators Val : clear implicits.

(** ** TTL cache ([src/cache], used by the distribution endpoints) *)

Module Cache.

Section TTLCache.

Context {V : Type}.

(** A cache entry [(key, value, storedAt, ttlSeconds)]: the key is the key
    of the map, the ttl comes with each call. *)
Record Entry : Type := MkEntry {
  value : V;
  storedAt : time
}.

(** What one call of [wrap] leaves behind: the store, the instants at which
    [producer] was invoked, the instant at which the call returned and what
    it returned. *)
Record Wrapped : Type := MkWrapped {
  store : gmap string Entry;
  invocations : list time;
  doneAt : time;
  returned : Settled V
}.

(** The clock counts milliseconds and the ttl seconds: an entry is served
    while [now - storedAt < ttlSeconds]. *)
Definition unexpired (ttl : Z) (now : time) (e : Entry) : bool :=
  now - storedAt e <? ttl * 1000.

Definition served (ttl : Z) (now : time) (entry : option Entry) : option V :=
  match entry with
  | Some e => if unexpired ttl now e then Some (value e) else None
  | None => None
  end.

(** Modelled from the spec: [Cache.wrap] of [src/cache] is not in the
    sources.  "If a non-expired Cache Entry exists for [key], return its
    value without invoking [producer].  Otherwise invoke [producer], store
    the result keyed by [key] with [storedAt = now], and return it.
    [producer] exceptions propagate to the caller uncached (a failed
    computation leaves any prior cache entry untouched)."  The result is
    stored when the producer has settled, and that instant is its
    [storedAt]. *)
Definition wrap (key : string) (producer : time -> Reply V) (ttl : Z)
    (st : gmap string Entry) (now : time) : Wrapped :=
  match served ttl now (st !! key) with
  | Some v =>
      {| store := st; invocations := []; doneAt := now; returned := Fulfilled v |}
  | None =>
      let computing := started now (producer now) in
      match outcome computing with
      | Fulfilled v =>
          {| store := <[key := {| value := v; storedAt := settledAt computing |}]> st;
             invocations := [now];
             doneAt := settledAt computing;
             returned := Fulfilled v |}
      | Rejected err =>
          {| store := st;
             invocations := [now];
             doneAt := settledAt computing;
             returned := Rejected err |}
      end
  end.

(** [Cache.keys.distributions_x] *)
Definition keys_distributions_x : string := "distributions_x".

(** [app.get('/distributions/x', ...)]: the aggregate query is the producer,
    [{ ttl: 86400 }] the option. *)
Definition distributions_x (computeDistributions : time -> Reply V) :
    gmap string Entry -> time -> Wrapped :=
  wrap keys_distributions_x computeDistributions 86400.

End TTLCache.

Arguments Entry V : clear implicits.
Arguments Wrapped V : clear implicits.

End Cache.

(** ** The [/records] endpoint: weapon top players cached on disk *)

Module Records.

(** [mom.format('YYYY-MM')] *)
Definition format_YYYY_MM (mom : Moment) : string :=
  zeroFill (year mom) 4 +:+ "-" +:+ zeroFill (month mom + 1) 2.

(** A row of [queryWeaponTopPlayers]. *)
Record PlayerRow : Type := MkPlayerRow {
  rule_id : Z;
  rating : string;
  start_time : string;
  player_name : string;
  player_id : string;
  weapon_id : Z
}.

(** The queries a call can issue.  The families of queries behind
    [xRankedRatingRecords], [leagueRatingRecords] and
    [monthlyLeagueBattlesRecords] (one query per rule and group type, joined
    by [Promise.all]) count as one query each. *)
Inductive DbQuery : Type :=
| QLatestXRankingStartTime
| QWeaponIds
| QWeaponTopPlayers (weaponId : Z)
| QXRankedRatingRecords
| QLeagueRatingRecords
| QMonthlyLeagueBattlesRecords.

(** The handler runs over the files of the [cache] directory, issues
    queries and returns or throws. *)
Record Outcome (A : Type) : Type := MkOutcome {
  disk : gmap string string;
  issued : list DbQuery;
  answer : Settled A
}.
Arguments MkOutcome {A} disk issued answer.
Arguments disk {A} o.
Arguments issued {A} o.
Arguments answer {A} o.

Definition Handler (A : Type) : Type := gmap string string -> Outcome A.

#[global] Instance Handler_ret : MRet Handler := fun A v fs =>
  {| disk := fs; issued := []; answer := Fulfilled v |}.

#[global] Instance Handler_bind : MBind Handler := fun A B k m fs =>
  let o := m fs in
  match answer o with
  | Fulfilled v =>
      let o' := k v (disk o) in
      {| disk := disk o'; issued := issued o ++ issued o'; answer := answer o' |}
  | Rejected err =>
      {| disk := disk o; issued := issued o; answer := Rejected err |}
  end.

(** [await q()] for one query. *)
Definition awaitQuery {A} (q : DbQuery) (r : Settled A) : Handler A := fun fs =>
  {| disk := fs; issued := [q]; answer := r |}.

(** A synchronous step that returns or throws. *)
Definition settle {A} (r : Settled A) : Handler A := fun fs =>
  {| disk := fs; issued := []; answer := r |}.

(** First rejection in array order, or all the values. *)
Fixpoint allOf {A} (rs : list (Settled A)) : Settled (list A) :=
  match rs with
  | [] => Fulfilled []
  | Fulfilled v :: rest =>
      match allOf rest with
      | Fulfilled vs => Fulfilled (v :: vs)
      | Rejected err => Rejected err
      end
  | Rejected err :: _ => Rejected err
  end.

(** [await Promise.all(ids.map(q))]: every query is issued, then joined. *)
Definition awaitAll {A} (q : Z -> DbQuery) (f : Z -> Settled A) (ids : list Z) : Handler (list A) := fun fs =>
  {| disk := fs; issued := map q ids; answer := allOf (map f ids) |}.

Definition existsSync (path : string) : Handler bool := fun fs =>
  {| disk := fs; issued := []; answer := Fulfilled (bool_decide (is_Some (fs !! path))) |}.

Definition readFileSync (path : string) : Handler string := fun fs =>
  {| disk := fs; issued := [];
     answer := match fs !! path with
               | Some content => Fulfilled content
               | None => Rejected (OtherError "ENOENT")
               end |}.

Definition writeFileSync (path content : string) : Handler unit := fun fs =>
  {| disk := <[path := content]> fs; issued := []; answer := Fulfilled tt |}.

Section Handler.

Context {Num Rows : Type}.

(** An entry of [top_players]. *)
Record TopPlayer : Type := MkTopPlayer {
  tp_player_id : string;
  tp_name : string;
  tp_rating : Num;
  tp_start_time : string
}.

(** An element of [weaponTopPlayers]: [{ weapon_id, top_players }], the
    latter an object keyed by rule id. *)
Record WeaponTopPlayers : Type := MkWeaponTopPlayers {
  wtp_weapon_id : Z;
  wtp_top_players : gmap Z TopPlayer
}.

(** The body sent by [res.json]. *)
Record Response : Type := MkResponse {
  cacheHit : bool;
  league_rating_records : Rows;
  monthly_league_battles_records : Rows;
  weapons_top_players : list WeaponTopPlayers;
  x_ranked_rating_records : Rows
}.

(** What the handler works with: the queries of [src/query] and of [db]
    (their settled results), [getOriginalWeaponId] of [src/data], the
    offset of the local time zone used by [moment(x)], and the JSON and
    number conversions of the runtime.  A query that finds nothing for a
    weapon answers [None] (a falsy value). *)
Record Backend : Type := MkBackend {
  queryLatestXRankingStartTime : Settled time;
  getWeaponIds : Settled (list Z);
  queryWeaponTopPlayers : Z -> Settled (option (list PlayerRow));
  queryXRankedRatingRecords : Settled Rows;
  queryLeagueRatingRecords : Settled Rows;
  queryMonthlyLeagueBattlesRecords : Settled Rows;
  getOriginalWeaponId : Z -> Z;
  utcOffset : time -> Z;
  Number : string -> Num;
  JSON_stringify : list WeaponTopPlayers -> string;
  JSON_parse : string -> Settled (list WeaponTopPlayers)
}.

Variable B : Backend.

(** [moment(t)]: the calendar fields in the local zone of the process. *)
Definition moment_local (t : time) : Moment := moment_utc (t + utcOffset B t).

Definition cachePath (latestXRankingTime : time) : string :=
  "cache/weapons-x-top-players." +:+ format_YYYY_MM (moment_local latestXRankingTime) +:+ ".json".

(** [Object.fromEntries(weapon.map((player) => [player.rule_id, {...}]))]:
    a later row of the same rule replaces an earlier one. *)
Definition topPlayersByRule (weapon : list PlayerRow) : gmap Z TopPlayer :=
  foldl (fun acc player =>
           <[rule_id player := {| tp_player_id := player_id player;
                                  tp_name := player_name player;
                                  tp_rating := Number B (rating player);
                                  tp_start_time := start_time player |}]> acc)
        ∅ weapon.

(** The callback of [weaponRecords.map]; [weapon[0].weapon_id] throws on an
    empty array. *)
Definition toWeaponTopPlayers (weapon : list PlayerRow) : Settled WeaponTopPlayers :=
  let topPlayers := topPlayersByRule weapon in
  match weapon with
  | [] => Rejected (OtherError "TypeError")
  | first :: _ =>
      Fulfilled {| wtp_weapon_id := getOriginalWeaponId B (weapon_id first);
                   wtp_top_players := topPlayers |}
  end.

(** The [else] branch: the per-weapon queries and the file write. *)
Definition computeWeaponTopPlayers (cachePath : string) : Handler (list WeaponTopPlayers) :=
  weaponIds ← awaitQuery QWeaponIds (getWeaponIds B);
  results ← awaitAll QWeaponTopPlayers (queryWeaponTopPlayers B) weaponIds;
  let weaponRecords := omap id results in
  weaponTopPlayers ← settle (allOf (map toWeaponTopPlayers weaponRecords));
  writeFileSync cachePath (JSON_stringify B weaponTopPlayers);;
  mret weaponTopPlayers.

(** [app.get('/records', wrapPromise(async (req, res) => { ... }))] *)
Definition records : Handler Response :=
  latestXRankingTime ← awaitQuery QLatestXRankingStartTime (queryLatestXRankingStartTime B);
  let cachePath := cachePath latestXRankingTime in
  cached ← existsSync cachePath;
  '(cacheHit, weaponTopPlayers) ←
     (if cached : bool
      then content ← readFileSync cachePath;
           parsed ← settle (JSON_parse B content);
           mret (true, parsed)
      else computed ← computeWeaponTopPlayers cachePath;
           mret (false, computed));
  xRankedRatingRecords ← awaitQuery QXRankedRatingRecords (queryXRankedRatingRecords B);
  leagueRatingRecords ← awaitQuery QLeagueRatingRecords (queryLeagueRatingRecords B);
  monthlyLeagueBattlesRecords ←
    awaitQuery QMonthlyLeagueBattlesRecords (queryMonthlyLeagueBattlesRecords B);
  mret {| cacheHit := cacheHit;
          league_rating_records := leagueRatingRecords;
          monthly_league_battles_records := monthlyLeagueBattlesRecords;
          weapons_top_players := weaponTopPlayers;
          x_ranked_rating_records := xRankedRatingRecords |}.

(** The per-weapon queries among the issued ones. *)
Definition isPerWeaponQuery (q : DbQuery) : bool :=
  match q with
  | QWeaponIds | QWeaponTopPlayers _ => true
  | _ => false
  end.

End Handler.

Arguments TopPlayer Num : clear implicits.
Arguments WeaponTopPlayers Num : clear implicits.
Arguments Response Num Rows : clear implicits.
Arguments Backend Num Rows : clear implicits.

End Records.

(** ** Reading a trace *)

Section Observations.

Context {Val : Type}.

Definition leagueFetches (tr : Trace Val) : list (time * string) :=
  omap (fun '(t, ev) => match ev with FetchLeagueRanking leagueId => Some (t, leagueId) | _ => None end) tr.

Definition rotationFetches (tr : Trace Val) : list time :=
  omap (fun '(t, ev) => match ev with FetchStageRotations => Some t | _ => None end) tr.

Definition notifications (tr : Trace Val) : list (time * list Val) :=
  omap (fun '(t, ev) => match ev with TweetLeagueUpdates rs => Some (t, rs) | _ => None end) tr.

Definition splatfestFetches (tr : Trace Val) : list (time * Splatfest) :=
  omap (fun '(t, ev) =>
          match ev with
          | FetchSplatfestRanking r i => Some (t, {| region := r; splatfest_id := i |})
          | _ => None
          end) tr.

Definition consoleLines (tr : Trace Val) : Trace Val :=
  omap (fun '(t, ev) => match ev with ConsoleLog _ | ConsoleError _ => Some (t, ev) | _ => None end) tr.

(** The line the [.catch] handler of the periodic job prints for [err]. *)
Definition errorLine (err : JsError) : Event Val :=
  if instanceof_NintendoAPIError err then ConsoleLog (MsgErr err) else ConsoleError (MsgErr err).

(** The single console line of a periodic run, by the outcomes of the
    rotation fetch and of the ranking family: the success line when both
    fulfilled, otherwise the line of the rejection that came first. *)
Definition combinedReport (rotations notified : Promise Val) : time * Event Val :=
  match outcome rotations, outcome notified with
  | Fulfilled _, Fulfilled _ =>
      let s := settledAt rotations `max` settledAt notified in
      (s, ConsoleLog (MsgCronCompleted s))
  | Rejected err, Fulfilled _ => (settledAt rotations, errorLine err)
  | Fulfilled _, Rejected err => (settledAt notified, errorLine err)
  | Rejected err1, Rejected err2 =>
      if settledAt rotations <=? settledAt notified
      then (settledAt rotations, errorLine err1)
      else (settledAt notified, errorLine err2)
  end.

(** The promise of one Splatfest ranking fetch issued at [t]. *)
Definition splatfestFetch (C : Collaborators Val) (t : time) (sf : Splatfest) : Promise Val :=
  started t (fetchSplatfestRanking C (region sf) (splatfest_id sf) t).

(** The instant at which the loop of the daily job goes on after the fetch
    of [sf] issued at [t] has fulfilled: when the 60 s timer set at the
    settlement fires. *)
Definition resumedAt (C : Collaborators Val) (t : time) (sf : Splatfest) : time :=
  let s := settledAt (splatfestFetch C t sf) in
  settledAt (started s (wait C 60000 s)).

End Observations.

(** ** Sample environments *)

Module Samples.

(** A league date in the shape the web API accepts ([\\d{8}]): two digits
    each for year, month, day and hour. *)
Definition leagueDateYYMMDDHH (t : Z) : string :=
  let mom := moment_utc t in
  zeroFill (year mom mod 100) 2 +:+ zeroFill (month mom + 1) 2 +:+
  zeroFill (date mom) 2 +:+ zeroFill (msOfDay mom / 3600000) 2.

Definition na1 : Splatfest := {| region := "na"; splatfest_id := 1 |}.
Definition eu2 : Splatfest := {| region := "eu"; splatfest_id := 2 |}.
Definition jp3 : Splatfest := {| region := "jp"; splatfest_id := 3 |}.

Definition notYetPublished : JsError := NintendoAPIError 404 "not found".
Definition brokenPayload : JsError := OtherError "SyntaxError".

(** An environment given by the replies that vary between the samples;
    payloads are numbers, every other call succeeds after a few
    milliseconds, timers fire on time. *)
Definition world (rotations : Reply Z) (ranking : string -> Reply Z)
    (splatfestRanking : Z -> Reply Z) (xRanking : Reply Z) (disabled : bool) : Collaborators Z :=
  {| calculateLeagueDate := leagueDateYYMMDDHH;
     fetchStageRotations := fun _ => rotations;
     fetchLeagueRanking := fun leagueId _ => ranking leagueId;
     tweetLeagueUpdates := fun _ _ => {| latency := 2; result := Fulfilled 0 |};
     fetchSplatfestSchedules := fun _ => {| latency := 3; result := Fulfilled 0 |};
     queryUnfetchedSplatfests := fun _ => {| latency := 1; result := Fulfilled [na1; eu2; jp3] |};
     fetchSplatfestRanking := fun _ splatfest_id _ => splatfestRanking splatfest_id;
     fetchXRanking := fun _ _ _ => xRanking;
     timerLag := fun _ _ => 0%N;
     DO_NOT_FETCH_SPLATFEST := disabled |}.

Definition ok (ms : N) : Reply Z := {| latency := ms; result := Fulfilled 1 |}.
Definition failing (ms : N) (err : JsError) : Reply Z := {| latency := ms; result := Rejected err |}.

(** Everything succeeds. *)
Definition calm : Collaborators Z :=
  world (ok 5) (fun _ => ok 7) (fun _ => ok 10) (ok 4) false.

(** The rotation fetch is declined by the remote service; rankings are fine. *)
Definition rotationsDown : Collaborators Z :=
  world (failing 1 notYetPublished) (fun _ => ok 7) (fun _ => ok 10) (ok 4) false.

(** The rotation fetch is declined and, later, both ranking fetches break. *)
Definition rotationsAndRankingsDown : Collaborators Z :=
  world (failing 1 notYetPublished) (fun _ => failing 7 brokenPayload) (fun _ => ok 10) (ok 4) false.

(** The second backlog item is declined by the remote service. *)
Definition secondItemDeclined : Collaborators Z :=
  world (ok 5) (fun _ => ok 7)
        (fun splatfest_id => if splatfest_id =? 2 then failing 10 notYetPublished else ok 10)
        (ok 4) false.

(** The X ranking of last month is not published yet. *)
Definition xRankingDeclined : Collaborators Z :=
  world (ok 5) (fun _ => ok 7) (fun _ => ok 10) (failing 4 notYetPublished) false.

(** Splatfest ingestion switched off by configuration. *)
Definition splatfestDisabled : Collaborators Z :=
  world (ok 5) (fun _ => ok 7) (fun _ => ok 10) (ok 4) true.

(** 2020-01-15T09:20:00Z and 2020-03-31T09:20:00Z *)
Definition jan15 : time := 1579080000000.
Definition mar31 : time := 1585646400000.

(** A backend for [/records]: two weapons, of which only the first has
    ranked players; ratings are whole numbers; a JSON codec that knows the
    one list of this sample. *)
Definition row : Records.PlayerRow :=
  {| Records.rule_id := 1; Records.rating := "2900"; Records.start_time := "2019-12-01";
     Records.player_name := "squid"; Records.player_id := "0123456789abcdef";
     Records.weapon_id := 0 |}.

Definition topOfSample : list (Records.WeaponTopPlayers Z) :=
  [ {| Records.wtp_weapon_id := 0;
       Records.wtp_top_players :=
         {[ 1 := {| Records.tp_player_id := "0123456789abcdef"; Records.tp_name := "squid";
                    Records.tp_rating := 2900; Records.tp_start_time := "2019-12-01" |} ]} |} ].

Definition backend (latest : time) : Records.Backend Z unit :=
  {| Records.queryLatestXRankingStartTime := Fulfilled latest;
     Records.getWeaponIds := Fulfilled [0; 10];
     Records.queryWeaponTopPlayers := fun weaponId =>
       Fulfilled (if weaponId =? 0 then Some [row] else None);
     Records.queryXRankedRatingRecords := Fulfilled tt;
     Records.queryLeagueRatingRecords := Fulfilled tt;
     Records.queryMonthlyLeagueBattlesRecords := Fulfilled tt;
     Records.getOriginalWeaponId := fun weaponId => weaponId;
     Records.utcOffset := fun _ => 0;
     Records.Number := fun _ => 2900;
     Records.JSON_stringify := fun l =>
       String.concat "," (map (fun w => pretty (Records.wtp_weapon_id w)) l);
     Records.JSON_parse := fun s =>
       if String.eqb s "0" then Fulfilled topOfSample
       else Rejected (OtherError "SyntaxError") |}.

(** 2019-12-01T00:00:00Z and 2020-01-01T00:00:00Z *)
Definition dec01 : time := 1575158400000.
Definition jan01 : time := 1577836800000.

End Samples.

(** ** More readings of a trace *)

Section MoreObservations.

Context {Val : Type}.

Definition xRankingFetches (tr : Trace Val) : list (time * (Z * Z)) :=
  omap (fun '(t, ev) => match ev with FetchXRanking y m => Some (t, (y, m)) | _ => None end) tr.

(** The instants at which the daily job printed its completion line. *)
Definition dailyCompletions (tr : Trace Val) : list time :=
  omap (fun '(t, ev) => match ev with ConsoleLog (MsgDailyCompleted _) => Some t | _ => None end) tr.

(** The instants at which the periodic job printed its success line. *)
Definition cronCompletions (tr : Trace Val) : list time :=
  omap (fun '(t, ev) => match ev with ConsoleLog (MsgCronCompleted _) => Some t | _ => None end) tr.

End MoreObservations.

(** ** Rating distributions

    The function that [/distributions/x] hands to [Cache.wrap], and that
    [/distributions/league] runs once for each group type, turns the rows
    of its query into one object by rule.  Objects are finite maps from
    property names; the properties an object literal inherits are left
    out, so a rule id or a column is taken not to bear the name of one. *)

Module Distributions.

(** A column value as the database driver hands it over. *)
Inductive Cell : Type :=
| CNull
| CNum (n : Z)
| CStr (s : string).

(** A row: its own properties, in the order of [Object.entries]. *)
Definition Row : Type := list (string * Cell).

(** [row.name], with [None] for [undefined]. *)
Definition prop (name : string) (row : Row) : option Cell :=
  snd <$> List.find (fun column => String.eqb (fst column) name) row.

(** The property name that a value used as an index stands for (an
    integer below 10^21 is written in decimal digits). *)
Definition propertyKey (v : option Cell) : string :=
  match v with
  | None => "undefined"
  | Some CNull => "null"
  | Some (CNum n) => pretty n
  | Some (CStr s) => s
  end.

Record Entry : Type := MkEntry {
  count : option Cell;
  distributions : gmap string Cell
}.

(** [key.startsWith(searchString)] *)
Definition startsWith (searchString key : string) : bool :=
  String.prefix searchString key.

Fixpoint skip (n : nat) (s : string) : string :=
  match n, s with
  | S n', String _ rest => skip n' rest
  | _, _ => s
  end.

(** [s.replace(pattern, replacement)] with a string for a pattern: the
    first occurrence is replaced, no other. *)
Fixpoint replace (pattern replacement s : string) : string :=
  if String.prefix pattern s then replacement +:+ skip (String.length pattern) s
  else match s with
       | EmptyString => EmptyString
       | String c rest => String c (replace pattern replacement rest)
       end.

(** What one column does to the buckets of its rule. *)
Definition pour (d : gmap string Cell) (column : string * Cell) : gmap string Cell :=
  if startsWith "over" (fst column)
  then <[replace "over" EmptyString (fst column) := snd column]> d
  else d.

Definition ruleOf (row : Row) : string := propertyKey (prop "rule_id" row).

(** The body of the inner [forEach], for one [[key, value]] of the row. *)
Definition addEntry (row : Row) (data : gmap string Entry) (column : string * Cell)
    : gmap string Entry :=
  let '(key, value) := column in
  let data :=
    match data !! ruleOf row with
    | Some _ => data
    | None => <[ruleOf row := {| count := prop "count" row; distributions := ∅ |}]> data
    end in
  if startsWith "over" key
  then alter (fun entry =>
                {| count := count entry;
                   distributions :=
                     <[replace "over" EmptyString key := value]> (distributions entry) |})
             (ruleOf row) data
  else data.

(** [rows.forEach((row) => Object.entries(row).forEach(...))] on [data = {}]. *)
Definition collect (rows : list Row) : gmap string Entry :=
  foldl (fun data row => foldl (addEntry row) data row) ∅ rows.

(** The rows of a rule: those that have a column at all and bear its id. *)
Definition bears (rule : string) (row : Row) : bool :=
  match row with
  | [] => false
  | _ :: _ => String.eqb (ruleOf row) rule
  end.

Definition rowsOf (rule : string) (rows : list Row) : list Row :=
  List.filter (bears rule) rows.

Definition columnsNamed (name : string) (row : Row) : list (string * Cell) :=
  List.filter (fun column => String.eqb (fst column) name) row.

End Distributions.

(** ** The weapon routes

    [moment.utc({ year, month })] is the first instant of a month, and the
    time value of a moment is what ECMAScript's [MakeDay] and [MakeDate]
    give for its fields. *)

Definition DayFromMonth (m leap : Z) : Z :=
  match m with
  | 0 => 0
  | 1 => 31
  | 2 => 59 + leap
  | 3 => 90 + leap
  | 4 => 120 + leap
  | 5 => 151 + leap
  | 6 => 181 + leap
  | 7 => 212 + leap
  | 8 => 243 + leap
  | 9 => 273 + leap
  | 10 => 304 + leap
  | _ => 334 + leap
  end.

(** [mom.valueOf()], for a month within 0..11. *)
Definition valueOf (mom : Moment) : time :=
  (DayFromYear (year mom)
   + DayFromMonth (month mom) (if isLeapYear (year mom) then 1 else 0)
   + date mom - 1) * msPerDay + msOfDay mom.

(** [moment.utc({ year, month })] *)
Definition moment_utc_of (y m : Z) : Moment :=
  {| year := y; month := m; date := 1; msOfDay := 0 |}.

(** [mom.add({ month: n })] *)
Definition add_months (n : Z) (mom : Moment) : Moment := subtract_months (- n) mom.

Module Weapons.

Import Distributions.

Inductive Body : Type :=
| Text (s : string)
| Thrown (e : JsError).

(** What the handler does with [res]. *)
Inductive Sent : Type :=
| SendStatus (code : Z)
| StatusSend (code : Z) (body : Body)
| Json (rows : list Row).

Record RankingQuery : Type := MkRankingQuery {
  rankingType : string;
  weaponType : string;
  startTime : string;
  endTime : string;
  ruleId : Z
}.

Record UsageQuery : Type := MkUsageQuery {
  usage_rankingType : string;
  usage_weaponType : string;
  previousMonth : time;
  currentMonth : time;
  usage_ruleId : Z
}.

Section Callbacks.

Variable dateToSqlTimestamp : time -> string.
Variable findRuleId : string -> Z.
Variable queryWeaponRanking : RankingQuery -> Settled (list Row).
Variable queryWeaponUsageDifference : UsageQuery -> Settled (list Row).
(** [moment.utc(text, 'YYYY-MM')]: the time value, [None] when
    [isValid()] is false. *)
Variable parseMonth : option string -> option time.

(** [rule ? findRuleId(rule) : 0] *)
Definition ruleIdOf (rule : option string) : Z :=
  match rule with
  | None => 0
  | Some key => if String.eqb key EmptyString then 0 else findRuleId key
  end.

(** The callback of the routes with a year and a month: the queries it
    sends and its answer. *)
Definition weaponPopularityRouterCallback (rankingType weaponType : string) (year month : Z)
    (rule : option string) : list RankingQuery * Sent :=
  let ruleId := ruleIdOf rule in
  let startTime := moment_utc_of year (month - 1) in
  let startTimestamp := dateToSqlTimestamp (valueOf startTime) in
  let endTimestamp := dateToSqlTimestamp (valueOf (add_months 1 startTime)) in
  let query := {| rankingType := rankingType; weaponType := weaponType;
                  startTime := startTimestamp; endTime := endTimestamp;
                  ruleId := ruleId |} in
  ([query],
   match queryWeaponRanking query with
   | Fulfilled [] => SendStatus 404
   | Fulfilled rows => Json rows
   | Rejected e => StatusSend 500 (Thrown e)
   end).

(** [rows[0].current_month_count === 0], which throws without a first row. *)
Definition firstCountIsZero (rows : list Row) : Settled bool :=
  match rows with
  | [] => Rejected (OtherError "TypeError")
  | first :: _ =>
      Fulfilled match prop "current_month_count" first with
                | Some (CNum 0) => true
                | _ => false
                end
  end.

Definition weaponTrendRouterCallback (rankingType weaponType : string) (rule : option string)
    (previous_month current_month : option string) : list UsageQuery * Sent :=
  match parseMonth previous_month, parseMonth current_month with
  | Some previousMonth, Some currentMonth =>
      if previousMonth <? currentMonth
      then
        let query := {| usage_rankingType := rankingType; usage_weaponType := weaponType;
                        previousMonth := previousMonth; currentMonth := currentMonth;
                        usage_ruleId := ruleIdOf rule |} in
        ([query],
         match queryWeaponUsageDifference query with
         | Fulfilled rows =>
             match firstCountIsZero rows with
             | Fulfilled true => SendStatus 404
             | Fulfilled false => Json rows
             | Rejected e => StatusSend 500 (Thrown e)
             end
         | Rejected e => StatusSend 500 (Thrown e)
         end)
      else ([], StatusSend 422 (Text "Invalid date(s)."))
  | _, _ => ([], StatusSend 422 (Text "Invalid date(s)."))
  end.

End Callbacks.

End Weapons.

(** ** The league route of the earlier API

    [/league/:type/:year/:month] of the earlier API hands its two
    parameters to a query with two placeholders, the year first. *)

Module EarlierApi.

Inductive WeaponKind : Type :=
| weapons
| specials
| subs.

(** The bindings handed to [db.raw], in the order of the placeholders. *)
Definition bindings (type : WeaponKind) (year month : Z) : list Z :=
  match type with
  | weapons => [year; month]
  | specials | subs => [month; year]
  end.

(** [extract(year from start_time) = ? AND extract(month from start_time) = ?],
    with months counted from 1, in a session whose time zone is UTC. *)
Definition selected (bound : list Z) (start_time : time) : bool :=
  match bound with
  | [first; second] =>
      (YearFromTime start_time =? first) && (MonthFromTime start_time + 1 =? second)
  | _ => false
  end.

(** The rows of a month that the query of a type counts. *)
Definition counted (type : WeaponKind) (year month : Z) (start_times : list time) : list time :=
  List.filter (selected (bindings type year month)) start_times.

End EarlierApi.

(** ** More sample environments *)

Module MoreSamples.

(** Everything succeeds and the backlog query finds nothing. *)
Definition nothingLeft : Collaborators Z :=
  {| calculateLeagueDate := Samples.leagueDateYYMMDDHH;
     fetchStageRotations := fun _ => Samples.ok 5;
     fetchLeagueRanking := fun _ _ => Samples.ok 7;
     tweetLeagueUpdates := fun _ _ => Samples.ok 2;
     fetchSplatfestSchedules := fun _ => Samples.ok 3;
     queryUnfetchedSplatfests := fun _ => {| latency := 1; result := Fulfilled [] |};
     fetchSplatfestRanking := fun _ _ _ => Samples.ok 10;
     fetchXRanking := fun _ _ _ => Samples.ok 4;
     timerLag := fun _ _ => 0%N;
     DO_NOT_FETCH_SPLATFEST := false |}.

(** Fetches succeed, the notification is refused. *)
Definition tweetRefused : Collaborators Z :=
  {| calculateLeagueDate := Samples.leagueDateYYMMDDHH;
     fetchStageRotations := fun _ => Samples.ok 5;
     fetchLeagueRanking := fun _ _ => Samples.ok 7;
     tweetLeagueUpdates := fun _ _ => Samples.failing 2 (OtherError "403 Forbidden");
     fetchSplatfestSchedules := fun _ => Samples.ok 3;
     queryUnfetchedSplatfests := fun _ => {| latency := 1; result := Fulfilled [] |};
     fetchSplatfestRanking := fun _ _ _ => Samples.ok 10;
     fetchXRanking := fun _ _ _ => Samples.ok 4;
     timerLag := fun _ _ => 0%N;
     DO_NOT_FETCH_SPLATFEST := false |}.

(** The backend of [Samples.backend] with chosen answers for the first of
    the remaining queries and for the weapon 10. *)
Definition backendWith (latest : time) (xRecords : Settled unit)
    (weapon10 : option (list Records.PlayerRow)) : Records.Backend Z unit :=
  {| Records.queryLatestXRankingStartTime := Fulfilled latest;
     Records.getWeaponIds := Fulfilled [0; 10];
     Records.queryWeaponTopPlayers := fun weaponId =>
       Fulfilled (if weaponId =? 0 then Some [Samples.row] else weapon10);
     Records.queryXRankedRatingRecords := xRecords;
     Records.queryLeagueRatingRecords := Fulfilled tt;
     Records.queryMonthlyLeagueBattlesRecords := Fulfilled tt;
     Records.getOriginalWeaponId := fun weaponId => weaponId;
     Records.utcOffset := fun _ => 0;
     Records.Number := fun _ => 2900;
     Records.JSON_stringify := fun l =>
       String.concat "," (map (fun w => pretty (Records.wtp_weapon_id w)) l);
     Records.JSON_parse := fun s =>
       if String.eqb s "0" then Fulfilled Samples.topOfSample
       else Rejected (OtherError "SyntaxError") |}.

(** Two rows as the query of [/distributions/x] answers them, cut down to
    two classes. *)
Definition splatZones : Distributions.Row :=
  [("count", Distributions.CStr "5120"); ("rule_id", Distributions.CNum 1);
   ("over2600", Distributions.CStr "5120"); ("over2610", Distributions.CStr "4377")].

Definition towerControl : Distributions.Row :=
  [("count", Distributions.CStr "4875"); ("rule_id", Distributions.CNum 2);
   ("over2600", Distributions.CStr "4875"); ("over2610", Distributions.CStr "4102")].

(** A parser of the two months of a trend request. *)
Definition monthOf (text : option string) : option time :=
  match text with
  | Some text =>
      if String.eqb text "2019-12" then Some Samples.dec01
      else if String.eqb text "2020-01" then Some Samples.jan01
      else None
  | None => None
  end.

End MoreSamples.

(** * Properties *)

(** Unfolds the event-loop combinators down to records of events. *)
Ltac unfold_async :=
  cbv [mapA mbind mret Async_bind Async_ret clock call await emit console_log console_error
       then_ catch_ Promise_all promiseOf started earliestRejection fulfilledValues
       latestSettlement events finishedAt completion outcome settledAt fold_right map app].

(** The same for the handler of [/records]. *)
Ltac unfold_handler :=
  cbv [mbind mret Records.Handler_bind Records.Handler_ret Records.awaitQuery Records.settle
       Records.awaitAll Records.existsSync Records.readFileSync Records.writeFileSync
       Records.computeWeaponTopPlayers Records.disk Records.issued Records.answer].

(** ** The periodic job *)

Section PeriodicJob.

Context {Val : Type} (C : Collaborators Val).

Lemma max_settled (t : time) (a b : N) :
  (t + Z.of_N a) `max` ((t + Z.of_N b) `max` t) = (t + Z.of_N a) `max` (t + Z.of_N b).
Proof. lia. Qed.

(** The ranking family, spelled out by the outcomes of its two fetches. *)
Lemma rankingsThenTweet_run (leagueDate : string) (t : time) :
  let team := started t (fetchLeagueRanking C (leagueDate +:+ "T") t) in
  let pair := started t (fetchLeagueRanking C (leagueDate +:+ "P") t) in
  let issued := [(t, FetchLeagueRanking (leagueDate +:+ "T"));
                 (t, FetchLeagueRanking (leagueDate +:+ "P"))] in
  rankingsThenTweet C leagueDate t =
  match outcome team, outcome pair with
  | Fulfilled vT, Fulfilled vP =>
      let s := settledAt team `max` settledAt pair in
      {| events := issued ++ [(s, TweetLeagueUpdates [vT; vP])];
         finishedAt := t;
         completion := Fulfilled (started s (tweetLeagueUpdates C [vT; vP] s)) |}
  | Rejected errT, Rejected errP =>
      {| events := issued; finishedAt := t;
         completion := Fulfilled
           (if settledAt team <=? settledAt pair
            then {| settledAt := settledAt team; outcome := Rejected errT |}
            else {| settledAt := settledAt pair; outcome := Rejected errP |}) |}
  | Rejected errT, Fulfilled _ =>
      {| events := issued; finishedAt := t;
         completion := Fulfilled {| settledAt := settledAt team; outcome := Rejected errT |} |}
  | Fulfilled _, Rejected errP =>
      {| events := issued; finishedAt := t;
         completion := Fulfilled {| settledAt := settledAt pair; outcome := Rejected errP |} |}
  end.
Proof.
  unfold rankingsThenTweet, fetchLeagueRankings. unfold_async.
  destruct (result (fetchLeagueRanking C (leagueDate +:+ "T") t)) as [vT|errT],
           (result (fetchLeagueRanking C (leagueDate +:+ "P") t)) as [vP|errP].
  - rewrite !max_settled. do 3 f_equal. lia.
  - reflexivity.
  - reflexivity.
  - now destruct (_ <=? _).
Qed.

(** The ranking family always hands back a promise, which settles no
    earlier than the trigger. *)
Lemma rankingsThenTweet_promise (leagueDate : string) (t : time) :
  ∃ notified, completion (rankingsThenTweet C leagueDate t) = Fulfilled notified
              ∧ finishedAt (rankingsThenTweet C leagueDate t) = t
              ∧ t <= settledAt notified.
Proof.
  rewrite rankingsThenTweet_run. cbv zeta.
  destruct (outcome (started t (fetchLeagueRanking C (leagueDate +:+ "T") t))),
           (outcome (started t (fetchLeagueRanking C (leagueDate +:+ "P") t)));
    eexists; (split; [reflexivity|]); (split; [reflexivity|]);
    try destruct (_ <=? _); cbn; lia.
Qed.

(** The combined wait, spelled out by the outcomes of the two families. *)
Lemma periodicCombined_run (t : time) (notified : Promise Val) :
  let leagueDate := calculateLeagueDate C (t - 120 * 60 * 1000) in
  let rotations := started t (fetchStageRotations C t) in
  completion (rankingsThenTweet C leagueDate t) = Fulfilled notified ->
  periodicCombined C t =
  {| events := (t, FetchStageRotations) :: events (rankingsThenTweet C leagueDate t);
     finishedAt := t;
     completion := Fulfilled
       match outcome rotations, outcome notified with
       | Fulfilled v1, Fulfilled v2 =>
           {| settledAt := settledAt rotations `max` settledAt notified;
              outcome := Fulfilled [v1; v2] |}
       | Rejected err, Fulfilled _ =>
           {| settledAt := settledAt rotations; outcome := Rejected err |}
       | Fulfilled _, Rejected err =>
           {| settledAt := settledAt notified; outcome := Rejected err |}
       | Rejected err1, Rejected err2 =>
           if settledAt rotations <=? settledAt notified
           then {| settledAt := settledAt rotations; outcome := Rejected err1 |}
           else {| settledAt := settledAt notified; outcome := Rejected err2 |}
       end |}.
Proof.
  cbv zeta. intros Hfam.
  destruct (rankingsThenTweet_promise (calculateLeagueDate C (t - 120 * 60 * 1000)) t)
    as (notified' & Hfam' & Hfin & Hle).
  rewrite Hfam in Hfam'. injection Hfam' as Heq. subst notified'.
  unfold periodicCombined.
  cbv [mbind Async_bind clock call]. cbn [events finishedAt completion].
  rewrite Hfam, Hfin. cbv [Promise_all]. cbn [events finishedAt completion app].
  rewrite app_nil_r. do 2 f_equal.
  unfold earliestRejection, fulfilledValues, latestSettlement, started.
  cbn [outcome settledAt map fold_right].
  destruct (result (fetchStageRotations C t)) as [v1|err1], notified as [s [v2|err2]];
    cbn [outcome settledAt] in *; try reflexivity.
  - f_equal. lia.
  - now destruct (_ <=? _).
Qed.

(** The job's chain: the console line is printed when the combined
    promise settles, and the promise at the end of the chain fulfils. *)
Lemma periodicJob_run (t : time) (combined : Promise (list Val)) :
  completion (periodicCombined C t) = Fulfilled combined ->
  finishedAt (periodicCombined C t) = t ->
  periodicJob C t =
  {| events := events (periodicCombined C t) ++
       [(settledAt combined,
         match outcome combined with
         | Fulfilled _ => ConsoleLog (MsgCronCompleted (settledAt combined))
         | Rejected err => errorLine err
         end)];
     finishedAt := t;
     completion := Fulfilled {| settledAt := settledAt combined; outcome := Fulfilled tt |} |}.
Proof.
  intros Hc Hfin. unfold periodicJob.
  cbv [mbind Async_bind]. cbn [events finishedAt completion].
  rewrite Hc, Hfin.
  destruct combined as [s [vs|err]];
    cbv [then_ catch_ clock console_log console_error emit promiseOf mbind Async_bind errorLine];
    cbn [events finishedAt completion outcome settledAt app].
  - reflexivity.
  - destruct (instanceof_NintendoAPIError err); reflexivity.
Qed.

(** The whole trace of a periodic run. *)
Lemma periodicJob_trace (t : time) :
  let leagueDate := calculateLeagueDate C (t - 120 * 60 * 1000) in
  let rotations := started t (fetchStageRotations C t) in
  ∃ notified,
    completion (rankingsThenTweet C leagueDate t) = Fulfilled notified
    ∧ events (periodicJob C t) =
        (t, FetchStageRotations) :: events (rankingsThenTweet C leagueDate t)
          ++ [combinedReport rotations notified]
    ∧ completion (periodicJob C t) =
        Fulfilled {| settledAt := fst (combinedReport rotations notified);
                     outcome := Fulfilled tt |}.
Proof.
  cbv zeta.
  destruct (rankingsThenTweet_promise (calculateLeagueDate C (t - 120 * 60 * 1000)) t)
    as (notified & Hfam & _ & _).
  exists notified. split; [exact Hfam|].
  pose proof (periodicCombined_run t notified Hfam) as Hrun. cbv zeta in Hrun.
  erewrite periodicJob_run; [| rewrite Hrun; reflexivity | rewrite Hrun; reflexivity].
  rewrite Hrun. cbn [events finishedAt completion]. unfold combinedReport.
  destruct (outcome (started t (fetchStageRotations C t))), (outcome notified);
    cbn [outcome settledAt fst]; try (split; reflexivity).
  destruct (_ <=? _); split; reflexivity.
Qed.

Lemma leagueFetches_app (a b : Trace Val) :
  leagueFetches (a ++ b) = leagueFetches a ++ leagueFetches b.
Proof. apply omap_app. Qed.

Lemma leagueFetches_cons (x : time * Event Val) (l : Trace Val) :
  leagueFetches (x :: l) = leagueFetches [x] ++ leagueFetches l.
Proof. apply (leagueFetches_app [x] l). Qed.

Lemma notifications_app (a b : Trace Val) :
  notifications (a ++ b) = notifications a ++ notifications b.
Proof. apply omap_app. Qed.

Lemma notifications_cons (x : time * Event Val) (l : Trace Val) :
  notifications (x :: l) = notifications [x] ++ notifications l.
Proof. apply (notifications_app [x] l). Qed.

Lemma rotationFetches_app (a b : Trace Val) :
  rotationFetches (a ++ b) = rotationFetches a ++ rotationFetches b.
Proof. apply omap_app. Qed.

Lemma rotationFetches_cons (x : time * Event Val) (l : Trace Val) :
  rotationFetches (x :: l) = rotationFetches [x] ++ rotationFetches l.
Proof. apply (rotationFetches_app [x] l). Qed.

Lemma consoleLines_app (a b : Trace Val) :
  consoleLines (a ++ b) = consoleLines a ++ consoleLines b.
Proof. apply omap_app. Qed.

Lemma consoleLines_cons (x : time * Event Val) (l : Trace Val) :
  consoleLines (x :: l) = consoleLines [x] ++ consoleLines l.
Proof. apply (consoleLines_app [x] l). Qed.

Lemma combinedReport_observed (rotations notified : Promise Val) :
  leagueFetches [combinedReport rotations notified] = []
  ∧ notifications [combinedReport rotations notified] = []
  ∧ rotationFetches [combinedReport rotations notified] = []
  ∧ consoleLines [combinedReport rotations notified] = [combinedReport rotations notified].
Proof.
  unfold combinedReport, errorLine.
  destruct (outcome rotations) as [?|e1], (outcome notified) as [?|e2];
    try destruct (_ <=? _);
    try destruct (instanceof_NintendoAPIError e1);
    try destruct (instanceof_NintendoAPIError e2);
    repeat split; reflexivity.
Qed.

(** What the ranking family contributes to each reading of the trace. *)
Lemma rankingsThenTweet_observed (leagueDate : string) (t : time) :
  let team := started t (fetchLeagueRanking C (leagueDate +:+ "T") t) in
  let pair := started t (fetchLeagueRanking C (leagueDate +:+ "P") t) in
  let tr := events (rankingsThenTweet C leagueDate t) in
  leagueFetches tr = [(t, leagueDate +:+ "T"); (t, leagueDate +:+ "P")]
  ∧ notifications tr =
      match outcome team, outcome pair with
      | Fulfilled vT, Fulfilled vP => [(settledAt team `max` settledAt pair, [vT; vP])]
      | _, _ => []
      end
  ∧ rotationFetches tr = []
  ∧ consoleLines tr = [].
Proof.
  cbv zeta. rewrite rankingsThenTweet_run. cbv zeta.
  destruct (outcome (started t (fetchLeagueRanking C (leagueDate +:+ "T") t))),
           (outcome (started t (fetchLeagueRanking C (leagueDate +:+ "P") t)));
    repeat split; reflexivity.
Qed.

(** The notifications of a run depend on the two ranking fetches only. *)
Lemma periodicJob_notifications (t : time) :
  let leagueDate := calculateLeagueDate C (t - 120 * 60 * 1000) in
  let team := started t (fetchLeagueRanking C (leagueDate +:+ "T") t) in
  let pair := started t (fetchLeagueRanking C (leagueDate +:+ "P") t) in
  notifications (events (periodicJob C t)) =
    match outcome team, outcome pair with
    | Fulfilled vT, Fulfilled vP => [(settledAt team `max` settledAt pair, [vT; vP])]
    | _, _ => []
    end.
Proof.
  cbv zeta. destruct (periodicJob_trace t) as (notified & _ & -> & _).
  rewrite notifications_cons, notifications_app.
  destruct (combinedReport_observed (started t (fetchStageRotations C t)) notified)
    as (_ & -> & _).
  rewrite app_nil_r. cbn [app].
  apply (rankingsThenTweet_observed (calculateLeagueDate C (t - 120 * 60 * 1000)) t).
Qed.

Lemma periodicJob_leagueFetches (t : time) :
  let leagueDate := calculateLeagueDate C (t - 120 * 60 * 1000) in
  leagueFetches (events (periodicJob C t)) = [(t, leagueDate +:+ "T"); (t, leagueDate +:+ "P")].
Proof.
  cbv zeta. destruct (periodicJob_trace t) as (notified & _ & -> & _).
  rewrite leagueFetches_cons, leagueFetches_app.
  destruct (combinedReport_observed (started t (fetchStageRotations C t)) notified)
    as (-> & _).
  rewrite app_nil_r. cbn [app].
  apply (rankingsThenTweet_observed (calculateLeagueDate C (t - 120 * 60 * 1000)) t).
Qed.

(** C2: whenever the periodic job fires at [t], the league identifiers it
    fetches are those of [calculateLeagueDate (t - 120 min)], with the two
    group tags appended; no other identifier is fetched. *)
Theorem periodic_job_snapshot_offset (t : time) :
  map snd (leagueFetches (events (periodicJob C t))) =
    [calculateLeagueDate C (t - 120 * 60 * 1000) +:+ "T";
     calculateLeagueDate C (t - 120 * 60 * 1000) +:+ "P"].
Proof.
  destruct (periodicJob_trace t) as (notified & _ & Htrace & _). rewrite Htrace.
  rewrite leagueFetches_cons, leagueFetches_app.
  destruct (combinedReport_observed (started t (fetchStageRotations C t)) notified) as (-> & _).
  destruct (rankingsThenTweet_observed (calculateLeagueDate C (t - 120 * 60 * 1000)) t)
    as (-> & _).
  reflexivity.
Qed.

(** C5: a periodic run issues exactly two ranking fetches, for the derived
    league date with the tags T and P, both at the trigger instant (so
    neither waits for the other to settle); the notification step is called
    exactly once, with both results as one batch, when both fetches have
    fulfilled, and not at all when either has failed. *)
Theorem periodic_job_subgroup_fetches (t : time) :
  let leagueDate := calculateLeagueDate C (t - 120 * 60 * 1000) in
  let team := started t (fetchLeagueRanking C (leagueDate +:+ "T") t) in
  let pair := started t (fetchLeagueRanking C (leagueDate +:+ "P") t) in
  leagueFetches (events (periodicJob C t)) = [(t, leagueDate +:+ "T"); (t, leagueDate +:+ "P")]
  ∧ t <= settledAt team
  ∧ t <= settledAt pair
  ∧ notifications (events (periodicJob C t)) =
      match outcome team, outcome pair with
      | Fulfilled vT, Fulfilled vP => [(settledAt team `max` settledAt pair, [vT; vP])]
      | _, _ => []
      end.
Proof.
  cbv zeta. split; [apply periodicJob_leagueFetches|].
  split; [cbn; lia|]. split; [cbn; lia|].
  apply periodicJob_notifications.
Qed.

(** C4: when the combined promise of a periodic run rejects with [err],
    the job prints exactly one line, at the instant of the rejection:
    [console.log(err)] if [err] is a [NintendoAPIError], [console.error(err)]
    otherwise; in both cases the promise at the end of the job's chain
    fulfils, so the error goes no further. *)
Theorem periodic_job_error_classified (t : time) (combined : Promise (list Val)) (err : JsError) :
  completion (periodicCombined C t) = Fulfilled combined ->
  outcome combined = Rejected err ->
  consoleLines (events (periodicJob C t)) =
    [(settledAt combined,
      if instanceof_NintendoAPIError err
      then ConsoleLog (MsgErr err)
      else ConsoleError (MsgErr err))]
  ∧ ∃ chainEnd, completion (periodicJob C t) = Fulfilled chainEnd
                ∧ outcome chainEnd = Fulfilled tt.
Proof.
  intros Hc Herr.
  destruct (rankingsThenTweet_promise (calculateLeagueDate C (t - 120 * 60 * 1000)) t)
    as (notified & Hfam & _ & _).
  pose proof (periodicCombined_run t notified Hfam) as Hrun. cbv zeta in Hrun.
  rewrite (periodicJob_run t combined Hc) by (rewrite Hrun; reflexivity).
  cbn [events completion]. split; [|eexists; split; reflexivity].
  rewrite Herr. rewrite Hrun. cbn [events].
  rewrite consoleLines_app, consoleLines_cons.
  destruct (rankingsThenTweet_observed (calculateLeagueDate C (t - 120 * 60 * 1000)) t)
    as (_ & _ & _ & ->).
  unfold errorLine.
  destruct (instanceof_NintendoAPIError err); reflexivity.
Qed.

(** C6 (as the code has it): the rotation fetch and the ranking family are
    joined in one combined wait.  The rotation fetch is issued at the
    trigger whatever the rankings do, and the notification of fetched
    rankings depends on the two ranking fetches only, not on the rotation
    fetch.  The job prints one line for the whole run: the success line
    when both families fulfilled, otherwise only the error of the family
    that rejected first. *)
Theorem periodic_job_joined_report (t : time) :
  let leagueDate := calculateLeagueDate C (t - 120 * 60 * 1000) in
  let rotations := started t (fetchStageRotations C t) in
  let team := started t (fetchLeagueRanking C (leagueDate +:+ "T") t) in
  let pair := started t (fetchLeagueRanking C (leagueDate +:+ "P") t) in
  ∃ notified,
    completion (rankingsThenTweet C leagueDate t) = Fulfilled notified
    ∧ rotationFetches (events (periodicJob C t)) = [t]
    ∧ notifications (events (periodicJob C t)) =
        match outcome team, outcome pair with
        | Fulfilled vT, Fulfilled vP => [(settledAt team `max` settledAt pair, [vT; vP])]
        | _, _ => []
        end
    ∧ consoleLines (events (periodicJob C t)) = [combinedReport rotations notified].
Proof.
  cbv zeta. destruct (periodicJob_trace t) as (notified & Hfam & Htr & _).
  exists notified. split; [exact Hfam|].
  split; [|split; [apply periodicJob_notifications|]]; rewrite Htr.
  - rewrite rotationFetches_cons, rotationFetches_app.
    destruct (combinedReport_observed (started t (fetchStageRotations C t)) notified)
      as (_ & _ & -> & _).
    destruct (rankingsThenTweet_observed (calculateLeagueDate C (t - 120 * 60 * 1000)) t)
      as (_ & _ & -> & _).
    reflexivity.
  - rewrite consoleLines_cons, consoleLines_app.
    destruct (combinedReport_observed (started t (fetchStageRotations C t)) notified)
      as (_ & _ & _ & ->).
    destruct (rankingsThenTweet_observed (calculateLeagueDate C (t - 120 * 60 * 1000)) t)
      as (_ & _ & _ & ->).
    reflexivity.
Qed.

End PeriodicJob.

(** C4 at a run whose rotation fetch is declined with a
    [NintendoAPIError]: one [console.log] line, chain fulfilled. *)
Lemma periodic_job_error_classified_witness :
  let combined : Promise (list Z) :=
    {| settledAt := Samples.jan15 + 1; outcome := Rejected Samples.notYetPublished |} in
  (completion (periodicCombined Samples.rotationsDown Samples.jan15) = Fulfilled combined
   ∧ outcome combined = Rejected Samples.notYetPublished)
  ∧ consoleLines (events (periodicJob Samples.rotationsDown Samples.jan15)) =
      [(Samples.jan15 + 1, ConsoleLog (MsgErr Samples.notYetPublished))]
  ∧ ∃ chainEnd, completion (periodicJob Samples.rotationsDown Samples.jan15) = Fulfilled chainEnd
                ∧ outcome chainEnd = Fulfilled tt.
Proof.
  cbv zeta. split; [split; vm_compute; reflexivity|].
  apply (periodic_job_error_classified Samples.rotationsDown Samples.jan15
           {| settledAt := Samples.jan15 + 1; outcome := Rejected Samples.notYetPublished |}
           Samples.notYetPublished); vm_compute; reflexivity.
Defined.

(** An error that is not a [NintendoAPIError] goes to [console.error]. *)
Example periodic_job_unexpected_error :
  consoleLines (events (periodicJob
     (Samples.world (Samples.ok 5) (fun _ => Samples.failing 7 Samples.brokenPayload)
                    (fun _ => Samples.ok 10) (Samples.ok 4) false) Samples.jan15)) =
    [(Samples.jan15 + 7, ConsoleError (MsgErr Samples.brokenPayload))].
Proof. vm_compute. reflexivity. Qed.

(** The identifier fetched at 09:20 is the one of 07:00, not the one of
    09:00. *)
Example periodic_job_offset_jan15 :
  leagueFetches (events (periodicJob Samples.calm Samples.jan15)) =
    [(Samples.jan15, "20011507T"); (Samples.jan15, "20011507P")]
  ∧ Samples.leagueDateYYMMDDHH Samples.jan15 = "20011509".
Proof. vm_compute. split; reflexivity. Qed.

(** C6 fails as stated: in the first run the rotation fetch is declined
    while the rankings are fetched and notified; in the second run the
    rotation fetch is declined the same way and the ranking family fails.
    Both runs print the same single line, the rotation error: nothing is
    reported for the ranking family, and its success cannot be told from
    its failure. *)
Lemma periodic_report_not_per_family :
  let d := calculateLeagueDate Samples.rotationsDown (Samples.jan15 - 120 * 60 * 1000) in
  (∃ notified, completion (rankingsThenTweet Samples.rotationsDown d Samples.jan15) = Fulfilled notified
               ∧ isFulfilled (outcome notified) = true)
  ∧ (∃ notified, completion (rankingsThenTweet Samples.rotationsAndRankingsDown d Samples.jan15)
                   = Fulfilled notified
                 ∧ isFulfilled (outcome notified) = false)
  ∧ consoleLines (events (periodicJob Samples.rotationsDown Samples.jan15)) =
      [(Samples.jan15 + 1, ConsoleLog (MsgErr Samples.notYetPublished))]
  ∧ consoleLines (events (periodicJob Samples.rotationsAndRankingsDown Samples.jan15)) =
      [(Samples.jan15 + 1, ConsoleLog (MsgErr Samples.notYetPublished))].
Proof.
  cbv zeta. repeat split.
  - eexists. split; vm_compute; reflexivity.
  - eexists. split; vm_compute; reflexivity.
Qed.

(** ** The daily job *)

Section DailyJob.

Context {Val : Type} (C : Collaborators Val).

Lemma started_later {A} (t : time) (r : Reply A) : t <= settledAt (started t r).
Proof. cbn. lia. Qed.

Lemma await_started {A} (t : time) (r : Reply A) :
  t `max` settledAt (started t r) = settledAt (started t r).
Proof. cbn. lia. Qed.

(** The instant at which the loop resumes after the 60 s timer set at [s]. *)
Lemma wait_settled (s : time) :
  settledAt (started s (wait C 60000 s)) = s + 60000 + Z.of_N (timerLag C 60000 s).
Proof. cbn. lia. Qed.

(** One turn of the loop. *)
Lemma drainBacklog_cons (sf : Splatfest) (rest : list Splatfest) (t : time) :
  let fetching := splatfestFetch C t sf in
  drainBacklog C (sf :: rest) t =
  match outcome fetching with
  | Fulfilled _ =>
      let s := settledAt fetching in
      let r := drainBacklog C rest (settledAt (started s (wait C 60000 s))) in
      {| events := [(t, ConsoleLog (MsgDailyFetching (region sf) (splatfest_id sf)));
                    (t, FetchSplatfestRanking (region sf) (splatfest_id sf));
                    (s, ConsoleLog MsgDailyDone);
                    (s, Wait 60000)] ++ events r;
         finishedAt := finishedAt r;
         completion := completion r |}
  | Rejected err =>
      {| events := [(t, ConsoleLog (MsgDailyFetching (region sf) (splatfest_id sf)));
                    (t, FetchSplatfestRanking (region sf) (splatfest_id sf))];
         finishedAt := settledAt fetching;
         completion := Rejected err |}
  end.
Proof.
  cbv zeta. unfold splatfestFetch.
  cbn [drainBacklog].
  cbv [mbind Async_bind console_log emit call await].
  cbn [events finishedAt completion app].
  rewrite await_started.
  destruct (outcome (started t (fetchSplatfestRanking C (region sf) (splatfest_id sf) t)))
    as [v|err]; [|reflexivity].
  cbn [events finishedAt completion app].
  rewrite await_started. cbn [outcome started result wait].
  reflexivity.
Qed.

Lemma splatfestFetches_app (a b : Trace Val) :
  splatfestFetches (a ++ b) = splatfestFetches a ++ splatfestFetches b.
Proof. apply omap_app. Qed.

Lemma splatfestFetches_cons (x : time * Event Val) (l : Trace Val) :
  splatfestFetches (x :: l) = splatfestFetches [x] ++ splatfestFetches l.
Proof. apply (splatfestFetches_app [x] l). Qed.

Lemma drainBacklog_nil (t : time) :
  drainBacklog C [] t = {| events := []; finishedAt := t; completion := Fulfilled tt |}.
Proof. reflexivity. Qed.

(** The fetches of the loop, turn by turn. *)
Lemma drain_fetches_cons (sf : Splatfest) (rest : list Splatfest) (t : time) :
  splatfestFetches (events (drainBacklog C (sf :: rest) t)) =
  (t, sf) :: match outcome (splatfestFetch C t sf) with
             | Fulfilled _ => splatfestFetches (events (drainBacklog C rest (resumedAt C t sf)))
             | Rejected _ => []
             end.
Proof.
  rewrite drainBacklog_cons. cbv zeta. unfold resumedAt.
  destruct (outcome (splatfestFetch C t sf)); destruct sf; reflexivity.
Qed.

Lemma drain_completion_cons (sf : Splatfest) (rest : list Splatfest) (t : time) :
  completion (drainBacklog C (sf :: rest) t) =
  match outcome (splatfestFetch C t sf) with
  | Fulfilled _ => completion (drainBacklog C rest (resumedAt C t sf))
  | Rejected err => Rejected err
  end.
Proof.
  rewrite drainBacklog_cons. cbv zeta. unfold resumedAt.
  destruct (outcome (splatfestFetch C t sf)); reflexivity.
Qed.

Lemma resumedAt_spaced (t : time) (sf : Splatfest) :
  settledAt (splatfestFetch C t sf) + 60000 <= resumedAt C t sf.
Proof. unfold resumedAt. cbv zeta. rewrite wait_settled. lia. Qed.

Lemma resumedAt_later (t : time) (sf : Splatfest) : t <= resumedAt C t sf.
Proof.
  pose proof (resumedAt_spaced t sf).
  pose proof (started_later t (fetchSplatfestRanking C (region sf) (splatfest_id sf) t)).
  unfold splatfestFetch in *. lia.
Qed.

(** No event of the loop is earlier than its start. *)
Lemma drain_events_later (backlog : list Splatfest) :
  ∀ t, Forall (fun p => t <= fst p) (events (drainBacklog C backlog t)).
Proof.
  induction backlog as [|sf rest IH]; intros t.
  - constructor.
  - rewrite drainBacklog_cons. cbv zeta.
    pose proof (started_later t (fetchSplatfestRanking C (region sf) (splatfest_id sf) t)) as Hs.
    pose proof (resumedAt_later t sf) as Hr. unfold resumedAt in Hr. cbv zeta in Hr.
    fold (splatfestFetch C t sf) in Hs.
    destruct (outcome (splatfestFetch C t sf)); cbn [events app].
    + repeat (constructor; [cbn; lia|]).
      eapply Forall_impl; [apply IH|]. cbn. intros; lia.
    + repeat (constructor; [cbn; lia|]). constructor.
Qed.

Lemma drain_fetches_later (backlog : list Splatfest) (t : time) :
  Forall (fun p => t <= fst p) (splatfestFetches (events (drainBacklog C backlog t))).
Proof.
  pose proof (drain_events_later backlog t) as H.
  induction (events (drainBacklog C backlog t)) as [|[s ev] tr IH].
  - constructor.
  - inversion H; subst. rewrite splatfestFetches_cons.
    apply Forall_app. split; [|auto].
    destruct ev; cbn; constructor; [assumption|constructor].
Qed.

(** Between two fetches of one drain lie the settlement of the earlier
    one and the 60 s delay. *)
Lemma drain_fetches_spaced (backlog : list Splatfest) :
  ∀ (t : time) (i j : nat) (ti tj : time) (sfi sfj : Splatfest),
    splatfestFetches (events (drainBacklog C backlog t)) !! i = Some (ti, sfi) ->
    splatfestFetches (events (drainBacklog C backlog t)) !! j = Some (tj, sfj) ->
    (i < j)%nat ->
    settledAt (splatfestFetch C ti sfi) + 60000 <= tj.
Proof.
  induction backlog as [|sf rest IH]; intros t i j ti tj sfi sfj Hi Hj Hlt.
  - rewrite drainBacklog_nil in Hi. discriminate.
  - rewrite drain_fetches_cons in Hi, Hj.
    destruct j as [|j]; [lia|]. cbn [lookup list_lookup] in Hj.
    destruct (outcome (splatfestFetch C t sf)) eqn:Hout; [|discriminate].
    destruct i as [|i].
    + injection Hi as <- <-.
      pose proof (drain_fetches_later rest (resumedAt C t sf)) as Hlater.
      rewrite Forall_lookup in Hlater. specialize (Hlater _ _ Hj). cbn [fst] in Hlater.
      pose proof (resumedAt_spaced t sf). lia.
    + cbn [lookup list_lookup] in Hi. eapply IH; eauto. lia.
Qed.

Lemma drain_finished_later (backlog : list Splatfest) :
  ∀ t, t <= finishedAt (drainBacklog C backlog t).
Proof.
  induction backlog as [|sf rest IH]; intros t.
  - cbn. lia.
  - rewrite drainBacklog_cons. cbv zeta.
    pose proof (started_later t (fetchSplatfestRanking C (region sf) (splatfest_id sf) t)) as Hs.
    pose proof (resumedAt_later t sf) as Hr. unfold resumedAt in Hr. cbv zeta in Hr.
    fold (splatfestFetch C t sf) in Hs.
    destruct (outcome (splatfestFetch C t sf)); cbn [finishedAt].
    + etransitivity; [exact Hr|apply IH].
    + exact Hs.
Qed.

(** The attempted items are a prefix of the backlog, in its order. *)
Lemma drain_attempts_prefix (backlog : list Splatfest) :
  ∀ t, map snd (splatfestFetches (events (drainBacklog C backlog t))) `prefix_of` backlog.
Proof.
  induction backlog as [|sf rest IH]; intros t.
  - rewrite drainBacklog_nil. cbn. reflexivity.
  - rewrite drain_fetches_cons. cbn [map snd].
    apply prefix_cons.
    destruct (outcome (splatfestFetch C t sf)); [apply IH|apply prefix_nil].
Qed.

(** A fetch that fails is the last one of the drain, and the loop ends by
    throwing its error. *)
Lemma drain_failure_is_last (backlog : list Splatfest) :
  ∀ (t : time) (i : nat) (ti : time) (sfi : Splatfest) (err : JsError),
    splatfestFetches (events (drainBacklog C backlog t)) !! i = Some (ti, sfi) ->
    outcome (splatfestFetch C ti sfi) = Rejected err ->
    length (splatfestFetches (events (drainBacklog C backlog t))) = S i
    ∧ completion (drainBacklog C backlog t) = Rejected err.
Proof.
  induction backlog as [|sf rest IH]; intros t i ti sfi err Hi Herr.
  - rewrite drainBacklog_nil in Hi. discriminate.
  - rewrite drain_fetches_cons in *. rewrite drain_completion_cons.
    destruct i as [|i].
    + injection Hi as <- <-. rewrite Herr. split; reflexivity.
    + cbn [lookup list_lookup] in Hi.
      destruct (outcome (splatfestFetch C t sf)); [|discriminate].
      destruct (IH _ _ _ _ _ Hi Herr) as [Hlen Hc].
      cbn [length]. rewrite Hlen. split; [reflexivity|exact Hc].
Qed.

(** When no attempted fetch fails, the whole backlog is attempted and the
    loop ends normally. *)
Lemma drain_all_when_no_failure (backlog : list Splatfest) :
  ∀ t,
    (∀ ti sfi, (ti, sfi) ∈ splatfestFetches (events (drainBacklog C backlog t)) ->
               isFulfilled (outcome (splatfestFetch C ti sfi)) = true) ->
    map snd (splatfestFetches (events (drainBacklog C backlog t))) = backlog
    ∧ completion (drainBacklog C backlog t) = Fulfilled tt.
Proof.
  induction backlog as [|sf rest IH]; intros t Hall.
  - rewrite drainBacklog_nil. split; reflexivity.
  - rewrite drain_fetches_cons in *. rewrite drain_completion_cons.
    pose proof (Hall t sf (list_elem_of_here _ _)) as Hhead.
    destruct (outcome (splatfestFetch C t sf)); [|discriminate].
    destruct (IH (resumedAt C t sf)) as [Hm Hc].
    { intros ti sfi Hin. apply Hall. now apply list_elem_of_further. }
    cbn [map snd]. rewrite Hm. split; [reflexivity|exact Hc].
Qed.

(** The loop prints its progress lines only: no error is ever logged. *)
Lemma drain_logs_no_error (backlog : list Splatfest) :
  ∀ t, Forall (fun p => ∀ err, snd p ≠ ConsoleLog (MsgErr err) ∧ snd p ≠ ConsoleError (MsgErr err))
              (events (drainBacklog C backlog t)).
Proof.
  induction backlog as [|sf rest IH]; intros t.
  - constructor.
  - rewrite drainBacklog_cons. cbv zeta.
    destruct (outcome (splatfestFetch C t sf)); cbn [events app];
      repeat (constructor; [cbn; intros; split; discriminate|]);
      [apply IH|constructor].
Qed.

(** C1 (as the code has it): the loop has no handler around the fetch.
    The items are attempted in the order of the backlog; a fetch that fails
    is the last one attempted in that drain and its error ends the loop, so
    the items after it are not attempted; when no attempted fetch fails,
    every item of the backlog is attempted and the loop completes; the loop
    never logs an error. *)
Theorem backlog_drain_stops_at_first_failure (backlog : list Splatfest) (t : time) :
  let run := drainBacklog C backlog t in
  let fetches := splatfestFetches (events run) in
  map snd fetches `prefix_of` backlog
  ∧ (∀ i ti sfi err,
       fetches !! i = Some (ti, sfi) ->
       outcome (splatfestFetch C ti sfi) = Rejected err ->
       length fetches = S i ∧ completion run = Rejected err)
  ∧ ((∀ ti sfi, (ti, sfi) ∈ fetches -> isFulfilled (outcome (splatfestFetch C ti sfi)) = true) ->
       map snd fetches = backlog ∧ completion run = Fulfilled tt)
  ∧ Forall (fun p => ∀ err, snd p ≠ ConsoleLog (MsgErr err) ∧ snd p ≠ ConsoleError (MsgErr err))
           (events run).
Proof.
  cbv zeta. split; [apply drain_attempts_prefix|].
  split; [apply drain_failure_is_last|].
  split; [apply drain_all_when_no_failure|apply drain_logs_no_error].
Qed.

(** The job when Splatfest ingestion is switched off. *)
Lemma dailyJob_disabled (t : time) :
  DO_NOT_FETCH_SPLATFEST C = true ->
  dailyJob C t = {| events := []; finishedAt := t; completion := Fulfilled tt |}.
Proof. intros H. unfold dailyJob. rewrite H. reflexivity. Qed.

(** The job otherwise: schedule sync, backlog query, drain. *)
Lemma dailyJob_enabled (t : time) :
  DO_NOT_FETCH_SPLATFEST C = false ->
  let syncing := started t (fetchSplatfestSchedules C t) in
  let s1 := settledAt syncing in
  let querying := started s1 (queryUnfetchedSplatfests C s1) in
  let s2 := settledAt querying in
  dailyJob C t =
  match outcome syncing with
  | Rejected err =>
      {| events := [(t, FetchSplatfestSchedules)]; finishedAt := s1; completion := Rejected err |}
  | Fulfilled _ =>
      match outcome querying with
      | Rejected err =>
          {| events := [(t, FetchSplatfestSchedules); (s1, QueryUnfetchedSplatfests)];
             finishedAt := s2; completion := Rejected err |}
      | Fulfilled backlog =>
          let drain := drainBacklog C backlog s2 in
          {| events :=
               [(t, FetchSplatfestSchedules); (s1, QueryUnfetchedSplatfests)]
               ++ (if (0 <? length backlog)%nat
                   then [(s2, ConsoleLog (MsgDailyUnfetched (length backlog)))]
                   else [])
               ++ events drain
               ++ match completion drain with
                  | Fulfilled _ =>
                      [(finishedAt drain, ConsoleLog (MsgDailyCompleted (finishedAt drain)))]
                  | Rejected _ => []
                  end;
             finishedAt := finishedAt drain;
             completion := completion drain |}
      end
  end.
Proof.
  intros Hflag. cbv zeta. unfold dailyJob. rewrite Hflag.
  cbv [mbind Async_bind call await]. cbn [events finishedAt completion app].
  rewrite await_started.
  destruct (outcome (started t (fetchSplatfestSchedules C t))) as [v|err]; [|reflexivity].
  cbn [events finishedAt completion app]. rewrite await_started.
  set (s1 := settledAt (started t (fetchSplatfestSchedules C t))).
  destruct (outcome (started s1 (queryUnfetchedSplatfests C s1))) as [backlog|err]; [|reflexivity].
  set (s2 := settledAt (started s1 (queryUnfetchedSplatfests C s1))).
  cbn [events finishedAt completion app].
  destruct backlog as [|sf rest].
  - reflexivity.
  - change (0 <? length (sf :: rest))%nat with true. cbv iota.
    cbv [console_log emit clock]. cbn [events finishedAt completion app].
    destruct (completion (drainBacklog C (sf :: rest) s2)) as [[]|err];
      cbn [events finishedAt completion]; [|now rewrite app_nil_r].
    reflexivity.
Qed.

(** The Splatfest fetches of a daily run are those of its drain. *)
Lemma dailyJob_splatfestFetches (t : time) :
  splatfestFetches (events (dailyJob C t)) = []
  ∨ ∃ backlog s, splatfestFetches (events (dailyJob C t)) =
                 splatfestFetches (events (drainBacklog C backlog s)).
Proof.
  destruct (DO_NOT_FETCH_SPLATFEST C) eqn:Hflag.
  - left. now rewrite dailyJob_disabled.
  - rewrite (dailyJob_enabled t Hflag). cbv zeta.
    destruct (outcome (started t (fetchSplatfestSchedules C t))); [|now left].
    destruct (outcome (started _ (queryUnfetchedSplatfests C _))) as [backlog|]; [|now left].
    right. eexists backlog, _. cbn [events].
    rewrite !splatfestFetches_app.
    assert (Hpre : ∀ a b : time * Event Val,
               snd a = FetchSplatfestSchedules -> snd b = QueryUnfetchedSplatfests ->
               splatfestFetches [a; b] = []).
    { intros [? ?] [? ?]; cbn; intros -> ->; reflexivity. }
    rewrite Hpre by reflexivity.
    destruct (0 <? length backlog)%nat; destruct (completion (drainBacklog C backlog _));
      cbn [app]; rewrite ?app_nil_r; reflexivity.
Qed.

(** C3: within one daily run, a later Splatfest fetch starts only after
    an earlier one has settled and 60 s more have gone by; the fetches are
    therefore never in flight together. *)
Theorem daily_drain_sequential (t : time) (i j : nat) (ti tj : time) (sfi sfj : Splatfest) :
  splatfestFetches (events (dailyJob C t)) !! i = Some (ti, sfi) ->
  splatfestFetches (events (dailyJob C t)) !! j = Some (tj, sfj) ->
  (i < j)%nat ->
  ti <= settledAt (splatfestFetch C ti sfi)
  ∧ settledAt (splatfestFetch C ti sfi) + 60000 <= tj.
Proof.
  intros Hi Hj Hlt. split; [apply started_later|].
  destruct (dailyJob_splatfestFetches t) as [Hnone|(backlog & s & Heq)].
  - rewrite Hnone in Hi. discriminate.
  - rewrite Heq in Hi, Hj. eapply drain_fetches_spaced; eauto.
Qed.

(** Nothing the loop does is earlier than its start, and the loop does not
    sync the schedule again. *)
Lemma drain_events_after (backlog : list Splatfest) :
  ∀ s0 t, s0 <= t ->
    Forall (fun p => s0 <= fst p ∧ snd p ≠ FetchSplatfestSchedules)
           (events (drainBacklog C backlog t)).
Proof.
  induction backlog as [|sf rest IH]; intros s0 t Hq.
  - constructor.
  - rewrite drainBacklog_cons. cbv zeta.
    pose proof (resumedAt_later t sf) as Hr. unfold resumedAt in Hr. cbv zeta in Hr.
    pose proof (started_later t (fetchSplatfestRanking C (region sf) (splatfest_id sf) t)) as Hs.
    fold (splatfestFetch C t sf) in Hs.
    destruct (outcome (splatfestFetch C t sf)); cbn [events app].
    + repeat (constructor; [cbn [fst snd]; split; [lia|discriminate]|]).
      apply IH. lia.
    + repeat (constructor; [cbn [fst snd]; split; [lia|discriminate]|]). constructor.
Qed.

(** C10: with [DO_NOT_FETCH_SPLATFEST] set the daily run does nothing at
    all.  Otherwise it starts with the schedule sync, and everything else
    the run does (the backlog query first, then the drain) happens no
    earlier than the settlement of that fetch, and only if it fulfilled. *)
Theorem daily_job_phases (t : time) :
  let syncing := started t (fetchSplatfestSchedules C t) in
  if DO_NOT_FETCH_SPLATFEST C
  then events (dailyJob C t) = []
  else ∃ rest,
      events (dailyJob C t) = (t, FetchSplatfestSchedules) :: rest
      ∧ Forall (fun p => settledAt syncing <= fst p ∧ snd p ≠ FetchSplatfestSchedules) rest
      ∧ match outcome syncing with
        | Fulfilled _ => head rest = Some (settledAt syncing, QueryUnfetchedSplatfests)
        | Rejected err => rest = [] ∧ completion (dailyJob C t) = Rejected err
        end.
Proof.
  cbv zeta. destruct (DO_NOT_FETCH_SPLATFEST C) eqn:Hflag.
  - now rewrite dailyJob_disabled.
  - rewrite (dailyJob_enabled t Hflag). cbv zeta.
    set (s1 := settledAt (started t (fetchSplatfestSchedules C t))).
    destruct (outcome (started t (fetchSplatfestSchedules C t))) as [v|err].
    2:{ eexists. split; [reflexivity|]. split; [constructor|]. split; reflexivity. }
    pose proof (started_later s1 (queryUnfetchedSplatfests C s1)) as Hq.
    set (s2 := settledAt (started s1 (queryUnfetchedSplatfests C s1))) in *.
    destruct (outcome (started s1 (queryUnfetchedSplatfests C s1))) as [backlog|err].
    2:{ eexists. split; [reflexivity|]. split; [|reflexivity].
        constructor; [cbn; split; [lia|discriminate]|constructor]. }
    eexists. cbn [events app]. split; [reflexivity|]. split; [|reflexivity].
    constructor; [cbn; split; [lia|discriminate]|].
    pose proof (drain_finished_later backlog s2) as Hfin.
    apply Forall_app. split.
    { destruct (0 <? length backlog)%nat; [|constructor].
      constructor; [cbn; split; [lia|discriminate]|constructor]. }
    apply Forall_app. split.
    { apply drain_events_after. exact Hq. }
    destruct (completion (drainBacklog C backlog s2)); [|constructor].
    constructor; [cbn [fst snd]; split; [lia|discriminate]|constructor].
Qed.

End DailyJob.

(** C3 on the sample backlog: the second fetch starts 60 s after the first
    one settled. *)
Lemma daily_drain_sequential_witness :
  let fetches := splatfestFetches (events (dailyJob Samples.calm Samples.jan15)) in
  (fetches !! 0%nat = Some (Samples.jan15 + 4, Samples.na1)
   ∧ fetches !! 1%nat = Some (Samples.jan15 + 60014, Samples.eu2))
  ∧ Samples.jan15 + 4 <= settledAt (splatfestFetch Samples.calm (Samples.jan15 + 4) Samples.na1)
  ∧ settledAt (splatfestFetch Samples.calm (Samples.jan15 + 4) Samples.na1) + 60000
      <= Samples.jan15 + 60014.
Proof.
  cbv zeta. split; [split; vm_compute; reflexivity|].
  apply (daily_drain_sequential Samples.calm Samples.jan15 0 1 _ _ Samples.na1 Samples.eu2).
  - vm_compute. reflexivity.
  - vm_compute. reflexivity.
  - lia.
Defined.

(** C1 fails as stated: with a backlog of three items whose second fetch
    is declined by the remote service, the third item is never attempted,
    nothing is logged about the failure, and the promise of the daily
    callback rejects with the error. *)
Lemma daily_drain_not_fault_isolated :
  let run := dailyJob Samples.secondItemDeclined Samples.jan15 in
  result (queryUnfetchedSplatfests Samples.secondItemDeclined (Samples.jan15 + 3))
    = Fulfilled [Samples.na1; Samples.eu2; Samples.jp3]
  ∧ splatfestFetches (events run) =
      [(Samples.jan15 + 4, Samples.na1); (Samples.jan15 + 60014, Samples.eu2)]
  ∧ consoleLines (events run) =
      [(Samples.jan15 + 4, ConsoleLog (MsgDailyUnfetched 3));
       (Samples.jan15 + 4, ConsoleLog (MsgDailyFetching "na" 1));
       (Samples.jan15 + 14, ConsoleLog MsgDailyDone);
       (Samples.jan15 + 60014, ConsoleLog (MsgDailyFetching "eu" 2))]
  ∧ completion run = Rejected Samples.notYetPublished.
Proof. vm_compute. repeat split; reflexivity. Qed.

(** With the drain of C1 at the same backlog: the failed fetch is the last
    attempt. *)
Lemma backlog_drain_stops_at_first_failure_witness :
  let run := drainBacklog Samples.secondItemDeclined [Samples.na1; Samples.eu2; Samples.jp3] 0 in
  map snd (splatfestFetches (events run)) `prefix_of` [Samples.na1; Samples.eu2; Samples.jp3]
  ∧ length (splatfestFetches (events run)) = 2%nat
  ∧ completion run = Rejected Samples.notYetPublished.
Proof.
  cbv zeta.
  destruct (backlog_drain_stops_at_first_failure Samples.secondItemDeclined
              [Samples.na1; Samples.eu2; Samples.jp3] 0) as (Hpre & Hlast & _ & _).
  split; [exact Hpre|].
  apply (Hlast 1%nat 60010 Samples.eu2 Samples.notYetPublished); vm_compute; reflexivity.
Defined.

(** C10 on the samples: nothing happens when ingestion is switched off;
    otherwise the backlog is queried when the schedule sync has settled,
    3 ms after the trigger. *)
Lemma daily_job_phases_witness :
  events (dailyJob Samples.splatfestDisabled Samples.jan15) = []
  ∧ ∃ rest, events (dailyJob Samples.calm Samples.jan15)
              = (Samples.jan15, FetchSplatfestSchedules) :: rest
            ∧ head rest = Some (Samples.jan15 + 3, QueryUnfetchedSplatfests).
Proof.
  split; [exact (daily_job_phases Samples.splatfestDisabled Samples.jan15)|].
  destruct (daily_job_phases Samples.calm Samples.jan15) as (rest & Hev & _ & Hhead).
  exists rest. split; [exact Hev|exact Hhead].
Defined.

(** ** The monthly job *)

Section Calendar.

(** [YearFromTime] meets ECMAScript's definition: it is the year whose
    first day is the last one not after the day of [t]. *)
Lemma YearFromTime_spec (t : time) :
  DayFromYear (YearFromTime t) <= Day t < DayFromYear (YearFromTime t + 1).
Proof.
  unfold YearFromTime. generalize (Day t). intros d. cbv zeta. unfold DayFromYear.
  repeat match goal with |- context [?a <=? ?b] => destruct (Z.leb_spec a b) end;
    Z.div_mod_to_equations; lia.
Qed.

Lemma DayFromYear_mono (y1 y2 : Z) : y1 < y2 -> DayFromYear (y1 + 1) <= DayFromYear y2.
Proof. unfold DayFromYear. intros H. Z.div_mod_to_equations. lia. Qed.

Lemma YearFromTime_unique (t : time) (y : Z) :
  DayFromYear y <= Day t < DayFromYear (y + 1) -> y = YearFromTime t.
Proof.
  intros Hy. pose proof (YearFromTime_spec t) as Hs.
  destruct (Z.lt_trichotomy y (YearFromTime t)) as [Hlt|[Heq|Hgt]]; [|exact Heq|].
  - pose proof (DayFromYear_mono _ _ Hlt). lia.
  - pose proof (DayFromYear_mono _ _ Hgt). lia.
Qed.

Lemma MonthFromTime_range (t : time) : 0 <= MonthFromTime t <= 11.
Proof.
  unfold MonthFromTime. cbv zeta.
  repeat match goal with |- context [?a <? ?b] => destruct (a <? b) end; lia.
Qed.

(** One month back: the month before, December of the year before for a
    moment in January. *)
Lemma subtract_one_month (mom : Moment) :
  0 <= month mom <= 11 ->
  year (subtract_months 1 mom) = (if month mom =? 0 then year mom - 1 else year mom)
  ∧ month (subtract_months 1 mom) = (if month mom =? 0 then 11 else month mom - 1).
Proof.
  intros Hm. unfold subtract_months. cbn [year month].
  destruct (Z.eqb_spec (month mom) 0) as [->|Hne].
  - split; reflexivity.
  - split.
    + replace ((month mom - 1) / 12) with 0; [lia|].
      symmetry. apply Z.div_small. lia.
    + apply Z.mod_small. lia.
Qed.

End Calendar.

Section MonthlyJob.

Context {Val : Type} (C : Collaborators Val).

(** C7: a run of the monthly job at [t] fetches the X ranking of the
    calendar month before the UTC month of [t]: the same year and the month
    before, or December of the year before when [t] lies in January; the
    month passed is between 1 and 12.  The outcome of the fetch is logged
    (the failure with its error) and the promise at the end of the job's
    chain fulfils in both cases. *)
Theorem monthly_job_previous_month (t : time) :
  let y := YearFromTime t in
  let m := MonthFromTime t + 1 in
  let py := if m =? 1 then y - 1 else y in
  let pm := if m =? 1 then 12 else m - 1 in
  let fetching := started t (fetchXRanking C py pm t) in
  1 <= pm <= 12
  ∧ events (monthlyJob C t) =
      (t, FetchXRanking py pm)
      :: match outcome fetching with
         | Fulfilled _ => [(settledAt fetching, ConsoleLog (MsgXFetched py pm))]
         | Rejected err => [(settledAt fetching, ConsoleLog (MsgXFailed py pm));
                            (settledAt fetching, ConsoleError (MsgErr err))]
         end
  ∧ ∃ chainEnd, completion (monthlyJob C t) = Fulfilled chainEnd
                ∧ outcome chainEnd = Fulfilled tt.
Proof.
  cbv zeta. pose proof (MonthFromTime_range t) as Hm.
  destruct (subtract_one_month (moment_utc t) Hm) as [Hy Hmo].
  cbn [moment_utc year month] in Hy, Hmo.
  assert (Hpy : year (subtract_months 1 (moment_utc t)) =
                (if MonthFromTime t + 1 =? 1 then YearFromTime t - 1 else YearFromTime t)).
  { rewrite Hy. destruct (Z.eqb_spec (MonthFromTime t) 0), (Z.eqb_spec (MonthFromTime t + 1) 1);
      try reflexivity; lia. }
  assert (Hpm : month (subtract_months 1 (moment_utc t)) + 1 =
                (if MonthFromTime t + 1 =? 1 then 12 else MonthFromTime t + 1 - 1)).
  { rewrite Hmo. destruct (Z.eqb_spec (MonthFromTime t) 0), (Z.eqb_spec (MonthFromTime t + 1) 1);
      lia. }
  split.
  { destruct (Z.eqb_spec (MonthFromTime t + 1) 1); lia. }
  unfold monthlyJob.
  cbv [mbind Async_bind clock call]. cbn [events finishedAt completion app].
  rewrite Hpy, Hpm.
  set (py := if MonthFromTime t + 1 =? 1 then YearFromTime t - 1 else YearFromTime t).
  set (pm := if MonthFromTime t + 1 =? 1 then 12 else MonthFromTime t + 1 - 1).
  cbv [then_ catch_ console_log console_error emit promiseOf mbind Async_bind].
  destruct (outcome (started t (fetchXRanking C py pm t))) as [v|err];
    cbn [events finishedAt completion outcome settledAt app];
    (split; [reflexivity|eexists; split; reflexivity]).
Qed.

End MonthlyJob.

(** Mid-January 2020: the ranking of December 2019 is fetched; when it is
    not published yet the failure is logged and goes no further. *)
Example monthly_job_january :
  events (monthlyJob Samples.xRankingDeclined Samples.jan15) =
    [(Samples.jan15, FetchXRanking 2019 12);
     (Samples.jan15 + 4, ConsoleLog (MsgXFailed 2019 12));
     (Samples.jan15 + 4, ConsoleError (MsgErr Samples.notYetPublished))]
  ∧ completion (monthlyJob Samples.xRankingDeclined Samples.jan15) =
      Fulfilled {| settledAt := Samples.jan15 + 4; outcome := Fulfilled tt |}.
Proof. vm_compute. split; reflexivity. Qed.

(** End of March 2020: February 2020. *)
Example monthly_job_march :
  events (monthlyJob Samples.calm Samples.mar31) =
    [(Samples.mar31, FetchXRanking 2020 2);
     (Samples.mar31 + 4, ConsoleLog (MsgXFetched 2020 2))].
Proof. vm_compute. reflexivity. Qed.

(** ** The TTL cache *)

Section CacheFacts.

Context {V : Type}.

Lemma wrap_hit (key : string) (producer : time -> Reply V) (ttl : Z)
    (st : gmap string (Cache.Entry V)) (now : time) (v : V) :
  Cache.served ttl now (st !! key) = Some v ->
  Cache.wrap key producer ttl st now =
  {| Cache.store := st; Cache.invocations := []; Cache.doneAt := now;
     Cache.returned := Fulfilled v |}.
Proof. intros H. unfold Cache.wrap. now rewrite H. Qed.

Lemma wrap_miss (key : string) (producer : time -> Reply V) (ttl : Z)
    (st : gmap string (Cache.Entry V)) (now : time) :
  Cache.served ttl now (st !! key) = None ->
  Cache.wrap key producer ttl st now =
  let computing := started now (producer now) in
  {| Cache.store := match outcome computing with
                    | Fulfilled v =>
                        <[key := {| Cache.value := v; Cache.storedAt := settledAt computing |}]> st
                    | Rejected _ => st
                    end;
     Cache.invocations := [now];
     Cache.doneAt := settledAt computing;
     Cache.returned := outcome computing |}.
Proof.
  intros H. unfold Cache.wrap. rewrite H. cbv zeta.
  destruct (outcome (started now (producer now))); reflexivity.
Qed.

(** C8: let a call of [wrap] at [t1] find no unexpired entry for [key] and
    its producer succeed with [v], and let a second call for the same key
    start at [t2], after the first has returned.  The first call invokes
    the producer once and stores [v].  If fewer than [ttl] seconds have
    passed since the storage, the second call does not invoke its producer,
    returns [v] and leaves the store as it is: one invocation for the two
    calls.  If more than [ttl] seconds have passed, the second call invokes
    its producer again.  Whenever the producer of a call fails, the error is
    what the call returns and the store is left exactly as it was. *)
Theorem cache_wrap_ttl (key : string) (producer producer' : time -> Reply V) (ttl : Z)
    (st : gmap string (Cache.Entry V)) (t1 t2 : time) (v : V) :
  let first := Cache.wrap key producer ttl st t1 in
  let second := Cache.wrap key producer' ttl (Cache.store first) t2 in
  Cache.served ttl t1 (st !! key) = None ->
  result (producer t1) = Fulfilled v ->
  Cache.doneAt first <= t2 ->
  (Cache.invocations first = [t1]
   ∧ Cache.returned first = Fulfilled v
   ∧ Cache.store first !! key =
       Some {| Cache.value := v; Cache.storedAt := Cache.doneAt first |})
  ∧ (t2 - Cache.doneAt first < ttl * 1000 ->
     Cache.invocations first ++ Cache.invocations second = [t1]
     ∧ Cache.returned second = Fulfilled v
     ∧ Cache.store second = Cache.store first)
  ∧ (ttl * 1000 < t2 - Cache.doneAt first ->
     Cache.invocations second = [t2]
     ∧ Cache.returned second = result (producer' t2))
  ∧ (∀ (failing : time -> Reply V) (st' : gmap string (Cache.Entry V)) (t : time) (err : JsError),
       Cache.served ttl t (st' !! key) = None ->
       result (failing t) = Rejected err ->
       Cache.invocations (Cache.wrap key failing ttl st' t) = [t]
       ∧ Cache.returned (Cache.wrap key failing ttl st' t) = Rejected err
       ∧ Cache.store (Cache.wrap key failing ttl st' t) = st').
Proof.
  cbv zeta. intros Hmiss Hv Hafter.
  rewrite (wrap_miss key producer ttl st t1 Hmiss) in *. cbv zeta in *.
  cbn [Cache.store Cache.invocations Cache.doneAt Cache.returned outcome started] in *.
  rewrite Hv in *.
  set (s := settledAt (started t1 (producer t1))) in *.
  split; [split; [reflexivity|split; [reflexivity|apply lookup_insert_eq]]|].
  split; [|split].
  - intros Hwithin.
    rewrite (wrap_hit key producer' ttl _ t2 v).
    + repeat split; reflexivity.
    + rewrite lookup_insert_eq. unfold Cache.served, Cache.unexpired. cbn [Cache.storedAt Cache.value].
      destruct (Z.ltb_spec (t2 - s) (ttl * 1000)); [reflexivity|lia].
  - intros Hexpired.
    rewrite (wrap_miss key producer' ttl _ t2).
    + split; reflexivity.
    + rewrite lookup_insert_eq. unfold Cache.served, Cache.unexpired. cbn [Cache.storedAt Cache.value].
      destruct (Z.ltb_spec (t2 - s) (ttl * 1000)); [lia|reflexivity].
  - intros failing st' t err Hmiss' Herr.
    rewrite (wrap_miss key failing ttl st' t Hmiss'). cbv zeta.
    cbn [Cache.store Cache.invocations Cache.doneAt Cache.returned outcome started].
    rewrite Herr. repeat split; reflexivity.
Qed.

End CacheFacts.

(** C8 at the [/distributions/x] endpoint with its ttl of 86400 s, on an
    empty cache: the value computed by the first request (stored after
    50 ms) is served 86399 s later without recomputation, and a request
    86401 s later recomputes. *)
Lemma cache_wrap_ttl_witness :
  let compute : time -> Reply Z := fun _ => {| latency := 50; result := Fulfilled 7 |} in
  let first := Cache.distributions_x compute ∅ 0 in
  (Cache.served 86400 0 ((∅ : gmap string (Cache.Entry Z)) !! Cache.keys_distributions_x) = None
   ∧ result (compute 0) = Fulfilled 7
   ∧ Cache.doneAt first <= 50 + 86399 * 1000)
  ∧ (Cache.invocations first = [0] ∧ Cache.returned first = Fulfilled 7)
  ∧ (Cache.invocations
       (Cache.distributions_x compute (Cache.store first) (50 + 86399 * 1000)) = []
     ∧ Cache.returned
         (Cache.distributions_x compute (Cache.store first) (50 + 86399 * 1000)) = Fulfilled 7)
  ∧ Cache.invocations
      (Cache.distributions_x compute (Cache.store first) (50 + 86401 * 1000))
    = [50 + 86401 * 1000].
Proof.
  cbv zeta.
  pose (compute := fun _ : time => {| latency := 50%N; result := Fulfilled 7 |}).
  assert (Hmiss : Cache.served 86400 0
            ((∅ : gmap string (Cache.Entry Z)) !! Cache.keys_distributions_x) = None)
    by reflexivity.
  assert (Hv : result (compute 0) = Fulfilled 7) by reflexivity.
  assert (Hdone : Cache.doneAt (Cache.wrap Cache.keys_distributions_x compute 86400 ∅ 0) = 50).
  { unfold Cache.wrap. rewrite Hmiss. reflexivity. }
  assert (H1 : Cache.doneAt (Cache.wrap Cache.keys_distributions_x compute 86400 ∅ 0)
               <= 50 + 86399 * 1000) by (rewrite Hdone; lia).
  assert (H2 : Cache.doneAt (Cache.wrap Cache.keys_distributions_x compute 86400 ∅ 0)
               <= 50 + 86401 * 1000) by (rewrite Hdone; lia).
  destruct (cache_wrap_ttl Cache.keys_distributions_x compute compute 86400 ∅ 0
              (50 + 86399 * 1000) 7 Hmiss Hv H1) as ((Hinv & Hret & _) & Hwithin & _ & _).
  destruct (cache_wrap_ttl Cache.keys_distributions_x compute compute 86400 ∅ 0
              (50 + 86401 * 1000) 7 Hmiss Hv H2) as (_ & _ & Hexpired & _).
  split; [split; [exact Hmiss|split; [exact Hv|exact H1]]|].
  split; [split; [exact Hinv|exact Hret]|].
  split.
  - destruct Hwithin as (Hcalls & Hret2 & _); [rewrite Hdone; lia|].
    split; [|exact Hret2].
    rewrite Hinv in Hcalls. exact (f_equal (@tail time) Hcalls).
  - destruct Hexpired as (Hcalls & _); [rewrite Hdone; lia|]. exact Hcalls.
Defined.

(** ** The [/records] cache *)

Section KeyText.

(** Decimal numerals start with a digit other than 0, unless the number
    is 0 itself. *)
Lemma digit_char_head (d : N) :
  (0 < d)%N -> pretty_N_char d ≠ "0"%char ∧ pretty_N_char d ≠ "-"%char.
Proof.
  intros Hd. destruct d as [|p]; [inversion Hd|].
  do 4 (try destruct p as [p|p|]); split; discriminate.
Qed.

Lemma pretty_N_go_head (x : N) :
  ∀ s, (0 < x)%N ->
       ∃ c s', pretty_N_go x s = String c s' ∧ c ≠ "0"%char ∧ c ≠ "-"%char.
Proof.
  induction (N.lt_wf_0 x) as [x _ IH]; intros s Hpos.
  rewrite pretty_N_go_step by assumption.
  destruct (decide (x `div` 10 = 0)%N) as [Hz|Hnz].
  - rewrite Hz, pretty_N_go_0.
    assert (x < 10)%N as Hlt by (apply N.div_small_iff; [discriminate|exact Hz]).
    rewrite N.mod_small by assumption.
    eexists _, _. split; [reflexivity|]. now apply digit_char_head.
  - apply IH; [apply N.div_lt; [exact Hpos|reflexivity]|apply N.neq_0_lt_0; exact Hnz].
Qed.

Lemma pretty_N_head (n : N) :
  ∃ c s, pretty n = String c s ∧ c ≠ "-"%char ∧ (c = "0"%char -> n = 0%N ∧ s = EmptyString).
Proof.
  unfold pretty, pretty_N. destruct (decide (n = 0%N)) as [->|Hne].
  - eexists _, _. split; [reflexivity|]. split; [discriminate|]. intros _. split; reflexivity.
  - destruct (pretty_N_go_head n EmptyString) as (c & s & Heq & Hc0 & Hcd); [lia|].
    exists c, s. split; [exact Heq|]. split; [exact Hcd|]. intros ->. contradiction.
Qed.

Lemma zeros_pretty_inj (k : nat) :
  ∀ (j : nat) (x y : N), zeros k +:+ pretty x = zeros j +:+ pretty y -> x = y.
Proof.
  induction k as [|k IH]; intros [|j] x y Heq; cbn [zeros String.append] in Heq.
  - now apply (inj pretty).
  - destruct (pretty_N_head x) as (c & s & Hx & _ & Hzero).
    rewrite Hx in Heq. injection Heq as -> Hs.
    destruct (Hzero eq_refl) as [_ ->].
    destruct (pretty_N_head y) as (c' & s' & Hy & _). rewrite Hy in Hs.
    destruct j; discriminate.
  - destruct (pretty_N_head y) as (c & s & Hy & _ & Hzero).
    rewrite Hy in Heq. injection Heq as <- Hs.
    destruct (Hzero eq_refl) as [_ ->].
    destruct (pretty_N_head x) as (c' & s' & Hx & _). rewrite Hx in Hs.
    destruct k; discriminate.
  - injection Heq as Heq. eapply IH; eassumption.
Qed.

Lemma zeros_pretty_no_dash (k : nat) (x : N) (s : string) :
  zeros k +:+ pretty x ≠ String "-" s.
Proof.
  destruct k; cbn [zeros String.append].
  - destruct (pretty_N_head x) as (c & s' & Hx & Hd & _). rewrite Hx.
    intros Heq. injection Heq as Hc _. contradiction.
  - discriminate.
Qed.

Lemma zeroFill_inj (w : nat) (a b : Z) : zeroFill a w = zeroFill b w -> a = b.
Proof.
  unfold zeroFill. cbv zeta.
  set (ka := (w - String.length (pretty (Z.abs_N a)))%nat).
  set (kb := (w - String.length (pretty (Z.abs_N b)))%nat).
  destruct (Z.leb_spec 0 a), (Z.leb_spec 0 b); intros Heq.
  - change (zeros ka +:+ pretty (Z.abs_N a) = zeros kb +:+ pretty (Z.abs_N b)) in Heq.
    apply zeros_pretty_inj in Heq. lia.
  - change (zeros ka +:+ pretty (Z.abs_N a) = String "-" (zeros kb +:+ pretty (Z.abs_N b))) in Heq.
    now apply zeros_pretty_no_dash in Heq.
  - change (String "-" (zeros ka +:+ pretty (Z.abs_N a)) = zeros kb +:+ pretty (Z.abs_N b)) in Heq.
    symmetry in Heq. now apply zeros_pretty_no_dash in Heq.
  - change (String "-" (zeros ka +:+ pretty (Z.abs_N a))
            = String "-" (zeros kb +:+ pretty (Z.abs_N b))) in Heq.
    injection Heq as Heq. apply zeros_pretty_inj in Heq. lia.
Qed.

Lemma string_length_app (s t : string) :
  String.length (s +:+ t) = (String.length s + String.length t)%nat.
Proof.
  induction s as [|c s IH]; [reflexivity|].
  change (S (String.length (s +:+ t)) = S (String.length s + String.length t)).
  now rewrite IH.
Qed.

Lemma string_app_inj_suffix (s1 : string) :
  ∀ s2 t1 t2, String.length t1 = String.length t2 -> s1 +:+ t1 = s2 +:+ t2 -> s1 = s2 ∧ t1 = t2.
Proof.
  induction s1 as [|c s1 IH]; intros [|c2 s2] t1 t2 Hlen Heq.
  - split; [reflexivity|exact Heq].
  - change (t1 = String c2 (s2 +:+ t2)) in Heq. subst t1.
    cbn [String.length] in Hlen. rewrite string_length_app in Hlen. lia.
  - change (String c (s1 +:+ t1) = t2) in Heq. subst t2.
    cbn [String.length] in Hlen. rewrite string_length_app in Hlen. lia.
  - change (String c (s1 +:+ t1) = String c2 (s2 +:+ t2)) in Heq.
    injection Heq as -> Heq. destruct (IH _ _ _ Hlen Heq) as [-> ->]. split; reflexivity.
Qed.

Lemma month_field_length (m : Z) :
  0 <= m <= 11 -> String.length ("-" +:+ zeroFill (m + 1) 2) = 3%nat.
Proof.
  intros Hm.
  assert (Hall : forallb (fun k => Nat.eqb (String.length ("-" +:+ zeroFill (Z.of_nat k + 1) 2)) 3)
                         (seq 0 12) = true) by (vm_compute; reflexivity).
  rewrite forallb_forall in Hall.
  specialize (Hall (Z.to_nat m)). rewrite Z2Nat.id in Hall by lia.
  apply Nat.eqb_eq, Hall, in_seq. lia.
Qed.

Lemma format_YYYY_MM_inj (m1 m2 : Moment) :
  0 <= month m1 <= 11 -> 0 <= month m2 <= 11 ->
  Records.format_YYYY_MM m1 = Records.format_YYYY_MM m2 ->
  year m1 = year m2 ∧ month m1 = month m2.
Proof.
  intros H1 H2 Heq. unfold Records.format_YYYY_MM in Heq.
  apply string_app_inj_suffix in Heq as [Hy Hm].
  - apply zeroFill_inj in Hy.
    change (String "-" (zeroFill (month m1 + 1) 2) = String "-" (zeroFill (month m2 + 1) 2)) in Hm.
    injection Hm as Hm. apply zeroFill_inj in Hm. split; [exact Hy|lia].
  - now rewrite !month_field_length.
Qed.

End KeyText.

Section RecordsFacts.

Import Records.

Context {Num Rows : Type}.

Lemma exists_hit (fs : gmap string string) (path content : string) :
  fs !! path = Some content -> bool_decide (is_Some (fs !! path)) = true.
Proof. intros ->. reflexivity. Qed.

Lemma exists_miss (fs : gmap string string) (path : string) :
  fs !! path = None -> bool_decide (is_Some (fs !! path)) = false.
Proof. intros ->. reflexivity. Qed.

(** Two snapshots whose local year or month differ have different cache
    files. *)
Lemma cachePath_inj (B1 B2 : Backend Num Rows) (t1 t2 : time) :
  cachePath B1 t1 = cachePath B2 t2 ->
  year (moment_local B1 t1) = year (moment_local B2 t2)
  ∧ month (moment_local B1 t1) = month (moment_local B2 t2).
Proof.
  unfold cachePath. intros Heq.
  apply (inj (String.append _)) in Heq.
  apply string_app_inj_suffix in Heq as [Heq _]; [|reflexivity].
  apply format_YYYY_MM_inj in Heq; [exact Heq| |];
    unfold moment_local; cbn [moment_utc month]; apply MonthFromTime_range.
Qed.

(** The file of the month exists: it is read, nothing is computed. *)
Lemma records_hit (B : Backend Num Rows) (fs : gmap string string) (t : time) (content : string) :
  queryLatestXRankingStartTime B = Fulfilled t ->
  fs !! cachePath B t = Some content ->
  List.filter isPerWeaponQuery (issued (records B fs)) = []
  ∧ disk (records B fs) = fs
  ∧ (∀ resp, answer (records B fs) = Fulfilled resp ->
       cacheHit resp = true ∧ JSON_parse B content = Fulfilled (weapons_top_players resp)).
Proof.
  intros Hlatest Hfile. unfold records. unfold_handler.
  rewrite Hlatest. cbv iota beta.
  rewrite (exists_hit _ _ _ Hfile), Hfile. cbv iota beta.
  destruct (JSON_parse B content) as [parsed|e0],
           (queryXRankedRatingRecords B) as [x|e1],
           (queryLeagueRatingRecords B) as [l|e2],
           (queryMonthlyLeagueBattlesRecords B) as [m|e3];
    cbn; (split; [reflexivity|split; [reflexivity|]]); intros resp Hresp;
    try discriminate; injection Hresp as <-; split; reflexivity.
Qed.

(** The file of the month does not exist: the weapon ids are queried, then
    every weapon; a response reports [cacheHit = false] and its list is
    the content of the new file; no other file is touched. *)
Lemma records_miss (B : Backend Num Rows) (fs : gmap string string) (t : time) :
  queryLatestXRankingStartTime B = Fulfilled t ->
  fs !! cachePath B t = None ->
  (∃ more, issued (records B fs) = QLatestXRankingStartTime :: QWeaponIds :: more)
  ∧ (∀ ids, getWeaponIds B = Fulfilled ids ->
       ∃ more, issued (records B fs) =
               QLatestXRankingStartTime :: QWeaponIds :: map QWeaponTopPlayers ids ++ more)
  ∧ (∀ path, path ≠ cachePath B t -> disk (records B fs) !! path = fs !! path)
  ∧ (∀ resp, answer (records B fs) = Fulfilled resp ->
       cacheHit resp = false
       ∧ disk (records B fs) !! cachePath B t =
           Some (JSON_stringify B (weapons_top_players resp))).
Proof.
  intros Hlatest Hfile. unfold records. unfold_handler.
  rewrite Hlatest. cbv iota beta.
  rewrite (exists_miss _ _ Hfile). cbv iota beta.
  destruct (getWeaponIds B) as [ids|e0]; cbv iota beta.
  2:{ cbn. split; [eexists; reflexivity|]. split; [intros ? [=]|].
      split; [reflexivity|intros ? [=]]. }
  destruct (allOf (map (queryWeaponTopPlayers B) ids)) as [results|e1]; cbv iota beta.
  2:{ cbn. split; [eexists; reflexivity|].
      split; [intros ? [= <-]; exists []; now rewrite app_nil_r|].
      split; [reflexivity|intros ? [=]]. }
  destruct (allOf (map (toWeaponTopPlayers B) (omap id results))) as [wtp|e2]; cbv iota beta.
  2:{ cbn. split; [eexists; reflexivity|].
      split; [intros ? [= <-]; exists []; now rewrite !app_nil_r|].
      split; [reflexivity|intros ? [=]]. }
  destruct (queryXRankedRatingRecords B) as [x|e3],
           (queryLeagueRatingRecords B) as [l|e4],
           (queryMonthlyLeagueBattlesRecords B) as [m|e5];
    cbn;
    (split; [eexists; reflexivity|]);
    (split; [intros ? [= <-]; rewrite ?app_nil_r; eexists; reflexivity|]);
    (split; [intros path Hne; now apply lookup_insert_ne|]);
    intros resp Hresp; try discriminate;
    injection Hresp as <-; (split; [reflexivity|apply lookup_insert_eq]).
Qed.

(** Whatever happens, a call leaves every file but the one of its month
    as it was. *)
Lemma records_disk_other (B : Backend Num Rows) (fs : gmap string string) (t : time) (path : string) :
  queryLatestXRankingStartTime B = Fulfilled t ->
  path ≠ cachePath B t ->
  disk (records B fs) !! path = fs !! path.
Proof.
  intros Hlatest Hne. destruct (fs !! cachePath B t) as [content|] eqn:Hfile.
  - destruct (records_hit B fs t content Hlatest Hfile) as (_ & -> & _). reflexivity.
  - destruct (records_miss B fs t Hlatest Hfile) as (_ & _ & Hother & _). now apply Hother.
Qed.

(** A call that cannot learn the latest snapshot touches no file. *)
Lemma records_without_latest (B : Backend Num Rows) (fs : gmap string string) (err : JsError) :
  queryLatestXRankingStartTime B = Rejected err ->
  disk (records B fs) = fs.
Proof. intros Hlatest. unfold records. unfold_handler. now rewrite Hlatest. Qed.

(** In a cache directory that started empty, every file was written by an
    earlier call and bears the month that was the latest at that call. *)
Lemma records_files_from_calls (calls : list (Backend Num Rows)) (path content : string) :
  foldl (fun fs Bi => disk (records Bi fs)) ∅ calls !! path = Some content ->
  ∃ Bi ti, Bi ∈ calls
           ∧ queryLatestXRankingStartTime Bi = Fulfilled ti
           ∧ path = cachePath Bi ti.
Proof.
  induction calls as [|B calls IH] using rev_ind; intros Hfile.
  - cbn in Hfile. rewrite lookup_empty in Hfile. discriminate.
  - rewrite foldl_app in Hfile. cbn [foldl] in Hfile.
    destruct (queryLatestXRankingStartTime B) as [t|err] eqn:Hlatest.
    + destruct (decide (path = cachePath B t)) as [->|Hne].
      * exists B, t. split; [apply elem_of_app; right; apply list_elem_of_here|].
        split; [exact Hlatest|reflexivity].
      * rewrite (records_disk_other B _ t path Hlatest Hne) in Hfile.
        destruct (IH Hfile) as (Bi & ti & Hin & Hq & Hp).
        exists Bi, ti. split; [apply elem_of_app; left; exact Hin|]. split; assumption.
    + rewrite (records_without_latest B _ err Hlatest) in Hfile.
      destruct (IH Hfile) as (Bi & ti & Hin & Hq & Hp).
      exists Bi, ti. split; [apply elem_of_app; left; exact Hin|]. split; assumption.
Qed.

(** So a month that has not been the latest at any earlier call has no
    file yet. *)
Lemma records_new_month_has_no_file (calls : list (Backend Num Rows))
    (B : Backend Num Rows) (t : time) :
  (∀ Bi ti, Bi ∈ calls -> queryLatestXRankingStartTime Bi = Fulfilled ti ->
            (year (moment_local Bi ti), month (moment_local Bi ti))
              ≠ (year (moment_local B t), month (moment_local B t))) ->
  foldl (fun fs Bi => disk (records Bi fs)) ∅ calls !! cachePath B t = None.
Proof.
  intros Hnew.
  destruct (foldl _ ∅ calls !! cachePath B t) as [content|] eqn:Hfile; [|reflexivity].
  destruct (records_files_from_calls calls _ _ Hfile) as (Bi & ti & Hin & Hq & Hp).
  exfalso. apply (Hnew Bi ti Hin Hq).
  symmetry in Hp. apply cachePath_inj in Hp as [-> ->]. reflexivity.
Qed.


(** Without the file, when every query is answered and every weapon kept
    has at least one row, the list is computed, written and sent. *)
Lemma records_miss_returns (B : Backend Num Rows) (fs : gmap string string) (t : time)
    (ids : list Z) (results : list (option (list PlayerRow)))
    (computed : list (WeaponTopPlayers Num)) (x l m : Rows) :
  queryLatestXRankingStartTime B = Fulfilled t ->
  fs !! cachePath B t = None ->
  getWeaponIds B = Fulfilled ids ->
  allOf (map (queryWeaponTopPlayers B) ids) = Fulfilled results ->
  allOf (map (toWeaponTopPlayers B) (omap id results)) = Fulfilled computed ->
  queryXRankedRatingRecords B = Fulfilled x ->
  queryLeagueRatingRecords B = Fulfilled l ->
  queryMonthlyLeagueBattlesRecords B = Fulfilled m ->
  answer (records B fs) =
    Fulfilled {| cacheHit := false;
                 league_rating_records := l;
                 monthly_league_battles_records := m;
                 weapons_top_players := computed;
                 x_ranked_rating_records := x |}
  ∧ disk (records B fs) = <[cachePath B t := JSON_stringify B computed]> fs.
Proof.
  intros Hlatest Hfile Hids Hres Hcomp Hx Hl Hm. unfold records. unfold_handler.
  rewrite Hlatest. cbv iota beta.
  rewrite (exists_miss _ _ Hfile). cbv iota beta.
  rewrite Hids. cbv iota beta. rewrite Hres. cbv iota beta. rewrite Hcomp. cbv iota beta.
  rewrite Hx, Hl, Hm. split; reflexivity.
Qed.

(** C9: the weapon top players of [/records] are cached in the file named
    after the year and month of the latest X ranking snapshot.  Take the
    cache directory as any sequence of earlier calls has left it, starting
    empty.  When the file of the latest month exists, a call issues no
    per-weapon query, leaves the files as they are, and its response
    reports [cacheHit = true] with the parsed content of the file.  When
    the latest snapshot is of a month that was not the latest at any
    earlier call, the file name differs from those used before; the call
    queries the weapons again, its response reports [cacheHit = false] and
    its list is written to the new file, and every other file stays as it
    was. *)
Theorem records_cached_by_month (calls : list (Backend Num Rows)) (B : Backend Num Rows)
    (t : time) :
  let fs := foldl (fun fs Bi => disk (records Bi fs)) ∅ calls in
  let run := records B fs in
  queryLatestXRankingStartTime B = Fulfilled t ->
  (∀ content, fs !! cachePath B t = Some content ->
     List.filter isPerWeaponQuery (issued run) = []
     ∧ disk run = fs
     ∧ ∀ resp, answer run = Fulfilled resp ->
         cacheHit resp = true ∧ JSON_parse B content = Fulfilled (weapons_top_players resp))
  ∧ ((∀ Bi ti, Bi ∈ calls -> queryLatestXRankingStartTime Bi = Fulfilled ti ->
               (year (moment_local Bi ti), month (moment_local Bi ti))
                 ≠ (year (moment_local B t), month (moment_local B t))) ->
     (∀ Bi ti, Bi ∈ calls -> queryLatestXRankingStartTime Bi = Fulfilled ti ->
               cachePath Bi ti ≠ cachePath B t)
     ∧ (∃ more, issued run = QLatestXRankingStartTime :: QWeaponIds :: more)
     ∧ (∀ path, path ≠ cachePath B t -> disk run !! path = fs !! path)
     ∧ ∀ resp, answer run = Fulfilled resp ->
         cacheHit resp = false
         ∧ disk run !! cachePath B t = Some (JSON_stringify B (weapons_top_players resp))).
Proof.
  cbv zeta. intros Hlatest. split.
  - intros content Hfile. now apply (records_hit B _ t content).
  - intros Hnew. split.
    + intros Bi ti Hin Hq Heq. apply (Hnew Bi ti Hin Hq).
      apply cachePath_inj in Heq as [-> ->]. reflexivity.
    + pose proof (records_new_month_has_no_file calls B t Hnew) as Hnone.
      destruct (records_miss B _ t Hlatest Hnone) as (Hq & _ & Hother & Hresp).
      split; [exact Hq|]. split; [exact Hother|exact Hresp].
Qed.

End RecordsFacts.

(** C9 on the samples.  A first call, with December 2019 as the latest
    month and an empty cache directory, has computed and written the file
    of December.  A call while December is still the latest month reads
    that file; a call after the January snapshot has arrived computes again
    and writes the file of January, next to the one of December. *)
Lemma records_cached_by_month_witness :
  let december := Samples.backend Samples.dec01 in
  let january := Samples.backend Samples.jan01 in
  let fs := foldl (fun fs Bi => Records.disk (Records.records Bi fs)) ∅ [december] in
  (Records.queryLatestXRankingStartTime december = Fulfilled Samples.dec01
   ∧ Records.queryLatestXRankingStartTime january = Fulfilled Samples.jan01
   ∧ fs !! Records.cachePath december Samples.dec01 = Some "0")
  ∧ (List.filter Records.isPerWeaponQuery (Records.issued (Records.records december fs)) = []
     ∧ ∃ resp, Records.answer (Records.records december fs) = Fulfilled resp
               ∧ Records.cacheHit resp = true
               ∧ Records.JSON_parse december "0" = Fulfilled (Records.weapons_top_players resp))
  ∧ Records.cachePath december Samples.dec01 ≠ Records.cachePath january Samples.jan01
  ∧ (∃ more, Records.issued (Records.records january fs) =
             Records.QLatestXRankingStartTime :: Records.QWeaponIds :: more)
  ∧ (∃ resp, Records.answer (Records.records january fs) = Fulfilled resp
             ∧ Records.cacheHit resp = false
             ∧ Records.disk (Records.records january fs)
                 !! Records.cachePath january Samples.jan01
               = Some (Records.JSON_stringify january (Records.weapons_top_players resp)))
  ∧ Records.disk (Records.records january fs) !! "cache/weapons-x-top-players.2019-12.json"
    = Some "0".
Proof.
  cbv zeta.
  pose (december := Samples.backend Samples.dec01).
  pose (january := Samples.backend Samples.jan01).
  assert (Hd : Records.queryLatestXRankingStartTime december = Fulfilled Samples.dec01)
    by reflexivity.
  assert (Hj : Records.queryLatestXRankingStartTime january = Fulfilled Samples.jan01)
    by reflexivity.
  assert (Hfile : foldl (fun fs Bi => Records.disk (Records.records Bi fs)) ∅ [december]
                    !! Records.cachePath december Samples.dec01 = Some "0")
    by (vm_compute; reflexivity).
  assert (Hnew : ∀ Bi ti, Bi ∈ [december] ->
            Records.queryLatestXRankingStartTime Bi = Fulfilled ti ->
            (year (Records.moment_local Bi ti), month (Records.moment_local Bi ti))
              ≠ (year (Records.moment_local january Samples.jan01),
                 month (Records.moment_local january Samples.jan01))).
  { intros Bi ti Hin Hq. apply list_elem_of_singleton in Hin. subst Bi.
    rewrite Hd in Hq. injection Hq as <-. vm_compute. discriminate. }
  destruct (records_cached_by_month [december] december Samples.dec01 Hd) as [Hhit _].
  destruct (Hhit "0" Hfile) as (Hnoq & _ & Hresp1).
  destruct (records_cached_by_month [december] january Samples.jan01 Hj) as [_ Hmiss].
  destruct (Hmiss Hnew) as (Hkey & Hq & Hother & Hresp2).
  split; [repeat split; assumption|].
  assert (Hans1 : Records.answer (Records.records december
                    (foldl (fun fs Bi => Records.disk (Records.records Bi fs)) ∅ [december])) =
                  Fulfilled {| Records.cacheHit := true;
                               Records.league_rating_records := tt;
                               Records.monthly_league_battles_records := tt;
                               Records.weapons_top_players := Samples.topOfSample;
                               Records.x_ranked_rating_records := tt |})
    by (vm_compute; reflexivity).
  assert (Hans2 : Records.answer (Records.records january
                    (foldl (fun fs Bi => Records.disk (Records.records Bi fs)) ∅ [december])) =
                  Fulfilled {| Records.cacheHit := false;
                               Records.league_rating_records := tt;
                               Records.monthly_league_battles_records := tt;
                               Records.weapons_top_players := Samples.topOfSample;
                               Records.x_ranked_rating_records := tt |})
    by (vm_compute; reflexivity).
  split.
  { split; [exact Hnoq|]. eexists. split; [exact Hans1|]. exact (Hresp1 _ Hans1). }
  split; [exact (Hkey december Samples.dec01 (list_elem_of_here _ _) Hd)|].
  split; [exact Hq|].
  split.
  { eexists. split; [exact Hans2|]. exact (Hresp2 _ Hans2). }
  rewrite Hother; [vm_compute; reflexivity|vm_compute; discriminate].
Defined.

(** * Further properties of the jobs *)

Section DailyJobMore.

Context {Val : Type} (C : Collaborators Val).

Lemma dailyCompletions_app (a b : Trace Val) :
  dailyCompletions (a ++ b) = dailyCompletions a ++ dailyCompletions b.
Proof. apply omap_app. Qed.

(** A drain that completes has attempted the whole backlog and has lasted
    at least 60 s per item. *)
Lemma drain_completed (backlog : list Splatfest) :
  ∀ t, completion (drainBacklog C backlog t) = Fulfilled tt ->
       map snd (splatfestFetches (events (drainBacklog C backlog t))) = backlog
       ∧ t + 60000 * Z.of_nat (length backlog) <= finishedAt (drainBacklog C backlog t).
Proof.
  induction backlog as [|sf rest IH]; intros t Hdone.
  - rewrite drainBacklog_nil. cbn. split; [reflexivity|lia].
  - rewrite drain_fetches_cons. rewrite drain_completion_cons in Hdone.
    rewrite drainBacklog_cons. cbv zeta.
    pose proof (resumedAt_spaced C t sf) as Hsp.
    pose proof (started_later t (fetchSplatfestRanking C (region sf) (splatfest_id sf) t)) as Hs.
    fold (splatfestFetch C t sf) in Hs.
    destruct (outcome (splatfestFetch C t sf)); [|discriminate].
    destruct (IH _ Hdone) as [Hm Hfin]. cbn [map snd finishedAt].
    rewrite Hm. split; [reflexivity|].
    fold (resumedAt C t sf). cbn [length]. lia.
Qed.

(** The loop never prints the completion line of the job. *)
Lemma drain_prints_no_completion (backlog : list Splatfest) :
  ∀ t, dailyCompletions (events (drainBacklog C backlog t)) = [].
Proof.
  induction backlog as [|sf rest IH]; intros t.
  - reflexivity.
  - rewrite drainBacklog_cons. cbv zeta.
    destruct (outcome (splatfestFetch C t sf)); cbn [events]; [|reflexivity].
    rewrite dailyCompletions_app, IH. reflexivity.
Qed.

(** X1: a daily run that gets a backlog of [n] items and completes has
    fetched every item of the backlog, in order, and has lasted at least
    [n] times 60 s: the loop waits 60 s after every fetch, the last one
    included. *)
Theorem daily_job_lasts_a_minute_per_item (t : time) (v : Val) (backlog : list Splatfest) :
  let syncing := started t (fetchSplatfestSchedules C t) in
  let querying := started (settledAt syncing) (queryUnfetchedSplatfests C (settledAt syncing)) in
  DO_NOT_FETCH_SPLATFEST C = false ->
  outcome syncing = Fulfilled v ->
  outcome querying = Fulfilled backlog ->
  completion (dailyJob C t) = Fulfilled tt ->
  map snd (splatfestFetches (events (dailyJob C t))) = backlog
  ∧ t + 60000 * Z.of_nat (length backlog) <= finishedAt (dailyJob C t).
Proof.
  cbv zeta. intros Hflag Hsync Hquery Hdone.
  pose proof (dailyJob_enabled C t Hflag) as Hrun. cbv zeta in Hrun.
  rewrite Hsync, Hquery in Hrun. rewrite Hrun in Hdone |- *.
  cbn [events finishedAt completion] in *.
  set (s2 := settledAt (started _ (queryUnfetchedSplatfests C _))) in *.
  destruct (drain_completed backlog s2 Hdone) as [Hm Hfin].
  split.
  - rewrite Hdone. rewrite !splatfestFetches_app.
    destruct (0 <? length backlog)%nat; cbn [app]; rewrite app_nil_r; exact Hm.
  - pose proof (started_later t (fetchSplatfestSchedules C t)).
    pose proof (started_later (settledAt (started t (fetchSplatfestSchedules C t)))
                  (queryUnfetchedSplatfests C (settledAt (started t (fetchSplatfestSchedules C t))))).
    fold s2 in H0. lia.
Qed.

(** X2: the line "Successfully completed daily cron job" is printed
    exactly when Splatfest ingestion is not switched off and the run
    completes without a failure; it is printed once, when the run ends. *)
Theorem daily_job_completion_line (t : time) :
  dailyCompletions (events (dailyJob C t)) =
    if DO_NOT_FETCH_SPLATFEST C then []
    else match completion (dailyJob C t) with
         | Fulfilled _ => [finishedAt (dailyJob C t)]
         | Rejected _ => []
         end.
Proof.
  destruct (DO_NOT_FETCH_SPLATFEST C) eqn:Hflag.
  - now rewrite dailyJob_disabled.
  - rewrite (dailyJob_enabled C t Hflag). cbv zeta.
    destruct (outcome (started t (fetchSplatfestSchedules C t))); [|reflexivity].
    destruct (outcome (started _ (queryUnfetchedSplatfests C _))) as [backlog|]; [|reflexivity].
    cbn [events finishedAt completion].
    rewrite !dailyCompletions_app, drain_prints_no_completion.
    destruct (0 <? length backlog)%nat, (completion (drainBacklog C backlog _)); reflexivity.
Qed.

(** X3: with an empty backlog the run fetches no ranking, sets no timer
    and logs only its completion line, as soon as the backlog query has
    answered. *)
Theorem daily_job_empty_backlog (t : time) (v : Val) :
  let syncing := started t (fetchSplatfestSchedules C t) in
  let querying := started (settledAt syncing) (queryUnfetchedSplatfests C (settledAt syncing)) in
  DO_NOT_FETCH_SPLATFEST C = false ->
  outcome syncing = Fulfilled v ->
  outcome querying = Fulfilled [] ->
  events (dailyJob C t) =
    [(t, FetchSplatfestSchedules);
     (settledAt syncing, QueryUnfetchedSplatfests);
     (settledAt querying, ConsoleLog (MsgDailyCompleted (settledAt querying)))]
  ∧ completion (dailyJob C t) = Fulfilled tt.
Proof.
  cbv zeta. intros Hflag Hsync Hquery.
  pose proof (dailyJob_enabled C t Hflag) as Hrun. cbv zeta in Hrun.
  rewrite Hsync, Hquery in Hrun. rewrite Hrun. split; reflexivity.
Qed.

End DailyJobMore.

(** X1 on the sample backlog of three items: the run lasts more than
    three minutes. *)
Lemma daily_job_lasts_a_minute_per_item_witness :
  (DO_NOT_FETCH_SPLATFEST Samples.calm = false
   ∧ completion (dailyJob Samples.calm Samples.jan15) = Fulfilled tt)
  ∧ map snd (splatfestFetches (events (dailyJob Samples.calm Samples.jan15)))
    = [Samples.na1; Samples.eu2; Samples.jp3]
  ∧ Samples.jan15 + 60000 * 3 <= finishedAt (dailyJob Samples.calm Samples.jan15).
Proof.
  split; [split; vm_compute; reflexivity|].
  apply (daily_job_lasts_a_minute_per_item Samples.calm Samples.jan15 0
           [Samples.na1; Samples.eu2; Samples.jp3]); vm_compute; reflexivity.
Defined.

(** X3 on a sample whose backlog query finds nothing. *)
Lemma daily_job_empty_backlog_witness :
  events (dailyJob MoreSamples.nothingLeft Samples.jan15) =
    [(Samples.jan15, FetchSplatfestSchedules);
     (Samples.jan15 + 3, QueryUnfetchedSplatfests);
     (Samples.jan15 + 4, ConsoleLog (MsgDailyCompleted (Samples.jan15 + 4)))]
  ∧ completion (dailyJob MoreSamples.nothingLeft Samples.jan15) = Fulfilled tt.
Proof.
  exact (daily_job_empty_backlog MoreSamples.nothingLeft Samples.jan15 1
           eq_refl eq_refl eq_refl).
Defined.

Section PeriodicJobMore.

Context {Val : Type} (C : Collaborators Val).

Lemma cronCompletions_app (a b : Trace Val) :
  cronCompletions (a ++ b) = cronCompletions a ++ cronCompletions b.
Proof. apply omap_app. Qed.

Lemma cronCompletions_cons (x : time * Event Val) (l : Trace Val) :
  cronCompletions (x :: l) = cronCompletions [x] ++ cronCompletions l.
Proof. apply (cronCompletions_app [x] l). Qed.

Lemma errorLine_not_completion (s : time) (err : JsError) :
  cronCompletions [(s, @errorLine Val err)] = [].
Proof. unfold errorLine. destruct (instanceof_NintendoAPIError err); reflexivity. Qed.

(** X4: the periodic job prints its success line exactly when the rotation
    fetch, both ranking fetches and the notification have all succeeded,
    and it prints it when the last of them has settled. *)
Theorem periodic_job_success_line (t : time) :
  let leagueDate := calculateLeagueDate C (t - 120 * 60 * 1000) in
  let rotations := started t (fetchStageRotations C t) in
  let team := started t (fetchLeagueRanking C (leagueDate +:+ "T") t) in
  let pair := started t (fetchLeagueRanking C (leagueDate +:+ "P") t) in
  cronCompletions (events (periodicJob C t)) =
    match outcome rotations, outcome team, outcome pair with
    | Fulfilled _, Fulfilled vT, Fulfilled vP =>
        let s := settledAt team `max` settledAt pair in
        let tweeting := started s (tweetLeagueUpdates C [vT; vP] s) in
        match outcome tweeting with
        | Fulfilled _ => [settledAt rotations `max` settledAt tweeting]
        | Rejected _ => []
        end
    | _, _, _ => []
    end.
Proof.
  cbv zeta. destruct (periodicJob_trace C t) as (notified & Hfam & -> & _).
  rewrite cronCompletions_cons, cronCompletions_app.
  rewrite rankingsThenTweet_run in Hfam |- *. cbv zeta in Hfam |- *.
  unfold combinedReport, started in *. cbn [outcome settledAt] in *.
  destruct (result (fetchStageRotations C t)) as [vr|er],
           (result (fetchLeagueRanking C _ t)) as [vT|eT],
           (result (fetchLeagueRanking C _ t)) as [vP|eP];
    cbn [completion events] in Hfam |- *; injection Hfam as <-;
    cbn [outcome settledAt];
    repeat match goal with
           | |- context [if ?b then _ else _] => destruct b
           | |- context [match result ?r with _ => _ end] => destruct (result r)
           end;
    cbn [outcome settledAt]; rewrite ?errorLine_not_completion; reflexivity.
Qed.

(** X5: a failure of the notification step is handled like a failure of a
    fetch.  When the rotation fetch and both ranking fetches succeed and
    [tweetLeagueUpdates] rejects with [err], the run prints exactly the
    line of [err] (by [console.log] or [console.error] according to its
    class), at the instant of the rejection, and the promise at the end of
    the job's chain fulfils. *)
Theorem periodic_job_notification_failure (t : time) (vR vT vP : Val) (err : JsError) :
  let leagueDate := calculateLeagueDate C (t - 120 * 60 * 1000) in
  let rotations := started t (fetchStageRotations C t) in
  let team := started t (fetchLeagueRanking C (leagueDate +:+ "T") t) in
  let pair := started t (fetchLeagueRanking C (leagueDate +:+ "P") t) in
  let s := settledAt team `max` settledAt pair in
  let tweeting := started s (tweetLeagueUpdates C [vT; vP] s) in
  outcome rotations = Fulfilled vR ->
  outcome team = Fulfilled vT ->
  outcome pair = Fulfilled vP ->
  outcome tweeting = Rejected err ->
  notifications (events (periodicJob C t)) = [(s, [vT; vP])]
  ∧ consoleLines (events (periodicJob C t)) = [(settledAt tweeting, errorLine err)]
  ∧ completion (periodicJob C t) =
      Fulfilled {| settledAt := settledAt tweeting; outcome := Fulfilled tt |}.
Proof.
  cbv zeta. intros Hrot HT HP Htw.
  destruct (periodicJob_trace C t) as (notified & Hfam & Htrace & Hdone).
  rewrite Htrace, Hdone.
  rewrite notifications_cons, notifications_app, consoleLines_cons, consoleLines_app.
  destruct (combinedReport_observed (started t (fetchStageRotations C t)) notified)
    as (_ & -> & _ & ->).
  destruct (rankingsThenTweet_observed C (calculateLeagueDate C (t - 120 * 60 * 1000)) t)
    as (_ & -> & _ & ->).
  rewrite rankingsThenTweet_run in Hfam. cbv zeta in Hfam.
  unfold combinedReport, started in *. cbn [outcome settledAt] in *.
  rewrite HT, HP in Hfam |- *. cbn [completion] in Hfam. injection Hfam as <-.
  cbn [outcome settledAt]. rewrite Hrot, Htw. cbn [fst app].
  repeat split; reflexivity.
Qed.

End PeriodicJobMore.

(** X5 on a sample whose notification is refused: one [console.error]
    line, 9 ms after the trigger. *)
Lemma periodic_job_notification_failure_witness :
  notifications (events (periodicJob MoreSamples.tweetRefused Samples.jan15))
    = [(Samples.jan15 + 7, [1; 1])]
  ∧ consoleLines (events (periodicJob MoreSamples.tweetRefused Samples.jan15))
    = [(Samples.jan15 + 9, ConsoleError (MsgErr (OtherError "403 Forbidden")))]
  ∧ completion (periodicJob MoreSamples.tweetRefused Samples.jan15)
    = Fulfilled {| settledAt := Samples.jan15 + 9; outcome := Fulfilled tt |}.
Proof.
  exact (periodic_job_notification_failure MoreSamples.tweetRefused Samples.jan15 1 1 1
           (OtherError "403 Forbidden") eq_refl eq_refl eq_refl eq_refl).
Defined.

Section MonthlyJobMore.

Context {Val : Type} (C : Collaborators Val).

(** The one fetch of a monthly run. *)
Lemma monthlyJob_fetch (t : time) :
  let lastMonth := subtract_months 1 (moment_utc t) in
  xRankingFetches (events (monthlyJob C t)) = [(t, (year lastMonth, month lastMonth + 1))].
Proof.
  cbv zeta. unfold monthlyJob.
  cbv [mbind Async_bind clock call then_ catch_ console_log console_error emit promiseOf].
  cbn [events finishedAt completion app].
  destruct (outcome (started t (fetchXRanking C _ _ t)));
    cbn [events finishedAt completion outcome settledAt app]; reflexivity.
Qed.

(** X6: every run of the monthly job issues exactly one X ranking fetch,
    and two runs triggered in the same UTC month, on whatever days and at
    whatever hours, ask for the same year and month. *)
Theorem monthly_job_same_month_same_fetch (t1 t2 : time) :
  YearFromTime t1 = YearFromTime t2 ->
  MonthFromTime t1 = MonthFromTime t2 ->
  length (xRankingFetches (events (monthlyJob C t1))) = 1%nat
  ∧ map snd (xRankingFetches (events (monthlyJob C t1)))
    = map snd (xRankingFetches (events (monthlyJob C t2))).
Proof.
  intros Hy Hm. rewrite !monthlyJob_fetch. cbv zeta.
  split; [reflexivity|].
  unfold subtract_months. cbn [moment_utc year month map snd].
  now rewrite Hy, Hm.
Qed.

End MonthlyJobMore.

(** X6 on the first and the fifteenth of January 2020: both runs ask for
    December 2019. *)
Lemma monthly_job_same_month_same_fetch_witness :
  (YearFromTime Samples.jan01 = YearFromTime Samples.jan15
   ∧ MonthFromTime Samples.jan01 = MonthFromTime Samples.jan15)
  ∧ map snd (xRankingFetches (events (monthlyJob Samples.calm Samples.jan01))) = [(2019, 12)]
  ∧ map snd (xRankingFetches (events (monthlyJob Samples.calm Samples.jan15))) = [(2019, 12)].
Proof.
  split; [split; vm_compute; reflexivity|].
  destruct (monthly_job_same_month_same_fetch Samples.calm Samples.jan01 Samples.jan15)
    as [_ Hsame]; [vm_compute; reflexivity..|].
  split; [vm_compute; reflexivity|].
  rewrite <- Hsame. vm_compute. reflexivity.
Defined.

(** * Further properties of the [/records] cache *)

Section RecordsMore.

Import Records.

Context {Num Rows : Type}.

(** What a response of a call that found no file tells about the call. *)
Lemma records_miss_inv (B : Backend Num Rows) (fs : gmap string string) (t : time)
    (resp : Response Num Rows) :
  queryLatestXRankingStartTime B = Fulfilled t ->
  fs !! cachePath B t = None ->
  answer (records B fs) = Fulfilled resp ->
  ∃ ids results,
    getWeaponIds B = Fulfilled ids
    ∧ allOf (map (queryWeaponTopPlayers B) ids) = Fulfilled results
    ∧ allOf (map (toWeaponTopPlayers B) (omap id results)) = Fulfilled (weapons_top_players resp)
    ∧ queryXRankedRatingRecords B = Fulfilled (x_ranked_rating_records resp)
    ∧ queryLeagueRatingRecords B = Fulfilled (league_rating_records resp)
    ∧ queryMonthlyLeagueBattlesRecords B = Fulfilled (monthly_league_battles_records resp)
    ∧ cacheHit resp = false.
Proof.
  intros Hlatest Hfile. unfold records. unfold_handler.
  rewrite Hlatest. cbv iota beta.
  rewrite (exists_miss _ _ Hfile). cbv iota beta.
  destruct (getWeaponIds B) as [ids|e0] eqn:Hids; cbv iota beta; [|intros [=]].
  destruct (allOf (map (queryWeaponTopPlayers B) ids)) as [results|e1] eqn:Hres;
    cbv iota beta; [|intros [=]].
  destruct (allOf (map (toWeaponTopPlayers B) (omap id results))) as [wtp|e2] eqn:Hcomp;
    cbv iota beta; [|intros [=]].
  destruct (queryXRankedRatingRecords B) as [x|e3]; cbv iota beta; [|intros [=]].
  destruct (queryLeagueRatingRecords B) as [l|e4]; cbv iota beta; [|intros [=]].
  destruct (queryMonthlyLeagueBattlesRecords B) as [m|e5]; cbv iota beta; [|intros [=]].
  intros [= <-]. exists ids, results. cbn. repeat split; assumption || reflexivity.
Qed.


(** X8: the file is written as soon as the list is computed, before the
    three remaining queries are awaited.  Whatever those queries answer,
    the call leaves the file of the month behind; if one of them fails the
    call fails, and the file is there all the same. *)
Theorem records_file_written_before_remaining_queries (B : Backend Num Rows)
    (fs : gmap string string) (t : time) (ids : list Z)
    (results : list (option (list PlayerRow))) (computed : list (WeaponTopPlayers Num)) :
  queryLatestXRankingStartTime B = Fulfilled t ->
  fs !! cachePath B t = None ->
  getWeaponIds B = Fulfilled ids ->
  allOf (map (queryWeaponTopPlayers B) ids) = Fulfilled results ->
  allOf (map (toWeaponTopPlayers B) (omap id results)) = Fulfilled computed ->
  disk (records B fs) = <[cachePath B t := JSON_stringify B computed]> fs
  ∧ (∀ err, queryXRankedRatingRecords B = Rejected err ->
            answer (records B fs) = Rejected err)
  ∧ (∀ x err, queryXRankedRatingRecords B = Fulfilled x ->
              queryLeagueRatingRecords B = Rejected err ->
              answer (records B fs) = Rejected err)
  ∧ (∀ x l err, queryXRankedRatingRecords B = Fulfilled x ->
                queryLeagueRatingRecords B = Fulfilled l ->
                queryMonthlyLeagueBattlesRecords B = Rejected err ->
                answer (records B fs) = Rejected err).
Proof.
  intros Hlatest Hfile Hids Hres Hcomp. unfold records. unfold_handler.
  rewrite Hlatest. cbv iota beta.
  rewrite (exists_miss _ _ Hfile). cbv iota beta.
  rewrite Hids. cbv iota beta. rewrite Hres. cbv iota beta. rewrite Hcomp. cbv iota beta.
  destruct (queryXRankedRatingRecords B) as [x|e3],
           (queryLeagueRatingRecords B) as [l|e4],
           (queryMonthlyLeagueBattlesRecords B) as [m|e5]; cbn;
    (split; [reflexivity|]); repeat split; intros; congruence.
Qed.

(** A weapon without any row makes the whole list fail. *)
Lemma toWeaponTopPlayers_empty (B : Backend Num Rows) (records : list (list PlayerRow)) :
  [] ∈ records ->
  allOf (map (toWeaponTopPlayers B) records) = Rejected (OtherError "TypeError").
Proof.
  induction records as [|rows rest IH]; intros Hin.
  - inversion Hin.
  - destruct rows as [|first more]; [reflexivity|].
    apply elem_of_cons in Hin as [Hin|Hin]; [discriminate|].
    cbn. now rewrite (IH Hin).
Qed.

(** X9: a weapon whose query answers an empty array (which [filter(Boolean)]
    keeps) makes the call fail with a [TypeError] at [weapon[0].weapon_id]:
    no file is written, so nothing is cached, and the three remaining
    queries are not issued. *)
Theorem records_empty_rows_fail (B : Backend Num Rows) (fs : gmap string string) (t : time)
    (ids : list Z) (results : list (option (list PlayerRow))) :
  queryLatestXRankingStartTime B = Fulfilled t ->
  fs !! cachePath B t = None ->
  getWeaponIds B = Fulfilled ids ->
  allOf (map (queryWeaponTopPlayers B) ids) = Fulfilled results ->
  Some [] ∈ results ->
  answer (records B fs) = Rejected (OtherError "TypeError")
  ∧ disk (records B fs) = fs
  ∧ issued (records B fs) = QLatestXRankingStartTime :: QWeaponIds :: map QWeaponTopPlayers ids.
Proof.
  intros Hlatest Hfile Hids Hres Hin. unfold records. unfold_handler.
  rewrite Hlatest. cbv iota beta.
  rewrite (exists_miss _ _ Hfile). cbv iota beta.
  rewrite Hids. cbv iota beta. rewrite Hres. cbv iota beta.
  rewrite toWeaponTopPlayers_empty.
  - cbn. rewrite !app_nil_r. repeat split; reflexivity.
  - apply list_elem_of_omap. exists (Some []). split; [exact Hin|reflexivity].
Qed.

(** The object built by [Object.fromEntries], for any start. *)
Lemma topPlayers_fold (B : Backend Num Rows) (weapon : list PlayerRow) :
  ∀ (acc : gmap Z (TopPlayer Num)) (rule : Z),
    foldl (fun acc player =>
             <[rule_id player := {| tp_player_id := player_id player;
                                    tp_name := player_name player;
                                    tp_rating := Number B (rating player);
                                    tp_start_time := start_time player |}]> acc)
          acc weapon !! rule =
    match last (List.filter (fun player => rule_id player =? rule) weapon) with
    | Some player => Some {| tp_player_id := player_id player;
                             tp_name := player_name player;
                             tp_rating := Number B (rating player);
                             tp_start_time := start_time player |}
    | None => acc !! rule
    end.
Proof.
  induction weapon as [|p rest IH]; intros acc rule.
  - reflexivity.
  - cbn [foldl List.filter]. rewrite IH.
    destruct (Z.eqb_spec (rule_id p) rule) as [Heq|Hne].
    + rewrite last_cons.
      destruct (last (List.filter _ rest)); [reflexivity|].
      rewrite Heq. apply lookup_insert_eq.
    + destruct (last (List.filter _ rest)); [reflexivity|].
      now apply lookup_insert_ne.
Qed.

(** X10: in [top_players] the entry of a rule is made from the last row
    of that rule in the result of the query (a later row replaces an
    earlier one), and a rule without a row has no entry. *)
Theorem topPlayersByRule_last_row_wins (B : Backend Num Rows) (weapon : list PlayerRow)
    (rule : Z) :
  topPlayersByRule B weapon !! rule =
    match last (List.filter (fun player => rule_id player =? rule) weapon) with
    | Some player => Some {| tp_player_id := player_id player;
                             tp_name := player_name player;
                             tp_rating := Number B (rating player);
                             tp_start_time := start_time player |}
    | None => None
    end.
Proof.
  unfold topPlayersByRule. rewrite topPlayers_fold.
  destruct (last _); [reflexivity|apply lookup_empty].
Qed.

(** The list computed from the kept weapons, element by element. *)
Lemma toWeaponTopPlayers_all (B : Backend Num Rows) (records : list (list PlayerRow)) :
  ∀ computed,
    allOf (map (toWeaponTopPlayers B) records) = Fulfilled computed ->
    Forall2 (fun rows entry =>
               ∃ first more,
                 rows = first :: more
                 ∧ wtp_weapon_id entry = getOriginalWeaponId B (weapon_id first)
                 ∧ wtp_top_players entry = topPlayersByRule B rows)
            records computed.
Proof.
  induction records as [|rows rest IH]; intros computed Hall.
  - injection Hall as <-. constructor.
  - cbn [map allOf] in Hall.
    destruct rows as [|first more]; [discriminate|]. cbn [toWeaponTopPlayers] in Hall.
    destruct (allOf (map (toWeaponTopPlayers B) rest)) as [others|err]; [|discriminate].
    injection Hall as <-. constructor; [|now apply IH].
    exists first, more. repeat split; reflexivity.
Qed.

(** X11: the list of a call that computes has one element for every
    weapon whose query answered rows, in the order of the weapon ids; the
    weapons whose query answered nothing are left out.  Each element bears
    the original id of the weapon of its first row and the top players of
    its rows. *)
Theorem records_computed_list_shape (B : Backend Num Rows) (fs : gmap string string) (t : time)
    (resp : Response Num Rows) :
  queryLatestXRankingStartTime B = Fulfilled t ->
  fs !! cachePath B t = None ->
  answer (records B fs) = Fulfilled resp ->
  ∃ ids results,
    getWeaponIds B = Fulfilled ids
    ∧ Forall2 (fun weaponId result => queryWeaponTopPlayers B weaponId = Fulfilled result)
              ids results
    ∧ Forall2 (fun rows entry =>
                 ∃ first more,
                   rows = first :: more
                   ∧ wtp_weapon_id entry = getOriginalWeaponId B (weapon_id first)
                   ∧ wtp_top_players entry = topPlayersByRule B rows)
              (omap id results) (weapons_top_players resp).
Proof.
  intros Hlatest Hfile Hresp.
  destruct (records_miss_inv B fs t resp Hlatest Hfile Hresp)
    as (ids & results & Hids & Hres & Hcomp & _).
  exists ids, results. split; [exact Hids|]. split; [|now apply toWeaponTopPlayers_all].
  clear -Hres. revert results Hres.
  induction ids as [|weaponId rest IH]; intros results Hres.
  - injection Hres as <-. constructor.
  - cbn [map allOf] in Hres.
    destruct (queryWeaponTopPlayers B weaponId) as [result|err] eqn:Hq; [|discriminate].
    destruct (allOf (map (queryWeaponTopPlayers B) rest)) as [others|err]; [|discriminate].
    injection Hres as <-. constructor; [exact Hq|now apply IH].
Qed.

End RecordsMore.


(** X8 on a sample whose X rated records cannot be queried: the call
    fails, the file of December is there. *)
Lemma records_file_written_before_remaining_queries_witness :
  let B := MoreSamples.backendWith Samples.dec01 (Rejected (OtherError "timeout")) None in
  Records.answer (Records.records B ∅) = Rejected (OtherError "timeout")
  ∧ Records.disk (Records.records B ∅) !! "cache/weapons-x-top-players.2019-12.json" = Some "0".
Proof.
  cbv zeta.
  destruct (records_file_written_before_remaining_queries
              (MoreSamples.backendWith Samples.dec01 (Rejected (OtherError "timeout")) None)
              ∅ Samples.dec01 [0; 10] [Some [Samples.row]; None] Samples.topOfSample
              eq_refl (lookup_empty _) eq_refl eq_refl eq_refl) as (Hdisk & Hfail & _).
  split; [apply Hfail; reflexivity|].
  rewrite Hdisk. vm_compute. reflexivity.
Defined.

(** X9 on a sample whose weapon 10 has an empty result. *)
Lemma records_empty_rows_fail_witness :
  let B := MoreSamples.backendWith Samples.dec01 (Fulfilled tt) (Some []) in
  Records.answer (Records.records B ∅) = Rejected (OtherError "TypeError")
  ∧ Records.disk (Records.records B ∅) = ∅
  ∧ Records.issued (Records.records B ∅) =
      [Records.QLatestXRankingStartTime; Records.QWeaponIds;
       Records.QWeaponTopPlayers 0; Records.QWeaponTopPlayers 10].
Proof.
  cbv zeta.
  apply (records_empty_rows_fail
           (MoreSamples.backendWith Samples.dec01 (Fulfilled tt) (Some []))
           ∅ Samples.dec01 [0; 10] [Some [Samples.row]; Some []]
           eq_refl (lookup_empty _) eq_refl eq_refl).
  apply elem_of_cons. right. apply list_elem_of_here.
Defined.

(** X11 on the sample: weapon 10 has no rows and is left out. *)
Lemma records_computed_list_shape_witness :
  ∃ ids results,
    Records.getWeaponIds (Samples.backend Samples.dec01) = Fulfilled ids
    ∧ length ids = 2%nat
    ∧ length (omap id results) = 1%nat
    ∧ Forall2 (fun weaponId result =>
                 Records.queryWeaponTopPlayers (Samples.backend Samples.dec01) weaponId
                 = Fulfilled result) ids results.
Proof.
  pose (resp1 := {| Records.cacheHit := false;
                    Records.league_rating_records := tt;
                    Records.monthly_league_battles_records := tt;
                    Records.weapons_top_players := Samples.topOfSample;
                    Records.x_ranked_rating_records := tt |} : Records.Response Z unit).
  assert (Hfirst : Records.answer (Records.records (Samples.backend Samples.dec01) ∅)
                   = Fulfilled resp1) by (vm_compute; reflexivity).
  destruct (records_computed_list_shape (Samples.backend Samples.dec01) ∅ Samples.dec01
              resp1 eq_refl (lookup_empty _) Hfirst) as (ids & results & Hids & Hq & Hshape).
  exists ids, results. split; [exact Hids|].
  injection Hids as <-. split; [reflexivity|]. split; [|exact Hq].
  apply Forall2_length in Hshape. rewrite Hshape. reflexivity.
Defined.

(** ** The rating distributions *)

Section DistributionsProps.

Import Distributions.

Lemma prefix_app (p : string) :
  ∀ s, String.prefix p s = true ↔ ∃ rest, s = p +:+ rest.
Proof.
  induction p as [|a p IH]; intros s.
  - split; [intros _; exists s; reflexivity|intros _; destruct s; reflexivity].
  - destruct s as [|b s]; cbn [String.prefix].
    + split; [discriminate|intros [rest Hrest]; discriminate].
    + destruct (ascii_dec a b) as [<-|Hne].
      * rewrite IH. split; intros [rest Hrest]; exists rest.
        -- now rewrite Hrest.
        -- change (String a s = String a (p +:+ rest)) in Hrest. now injection Hrest.
      * split; [discriminate|intros [rest Hrest]].
        change (String b s = String a (p +:+ rest)) in Hrest. injection Hrest as Hab _.
        congruence.
Qed.

Lemma skip_app (p rest : string) : skip (String.length p) (p +:+ rest) = rest.
Proof. induction p as [|a p IH]; [now destruct rest|exact IH]. Qed.

Lemma replace_unfold (pattern replacement s : string) :
  replace pattern replacement s =
    if String.prefix pattern s then replacement +:+ skip (String.length pattern) s
    else match s with
         | EmptyString => EmptyString
         | String c rest => String c (replace pattern replacement rest)
         end.
Proof. destruct s; reflexivity. Qed.

(** A key that starts with the pattern loses just that start. *)
Lemma replace_start (pattern rest : string) :
  replace pattern EmptyString (pattern +:+ rest) = rest.
Proof.
  rewrite replace_unfold.
  assert (Hp : String.prefix pattern (pattern +:+ rest) = true)
    by (apply prefix_app; now exists rest).
  rewrite Hp. apply skip_app.
Qed.

(** The columns that end up in bucket [b] are those named [over] and [b]. *)
Lemma bucket_of_column (key b : string) :
  startsWith "over" key && String.eqb (replace "over" EmptyString key) b
  = String.eqb key ("over" +:+ b).
Proof.
  unfold startsWith. destruct (String.prefix "over" key) eqn:Hp.
  - apply prefix_app in Hp as [rest ->]. rewrite replace_start.
    destruct (String.eqb_spec rest b) as [->|Hne].
    + symmetry. apply String.eqb_refl.
    + symmetry. apply String.eqb_neq. intros Heq. now injection Heq.
  - symmetry. apply String.eqb_neq. intros ->.
    assert (String.prefix "over" ("over" +:+ b) = true) by (apply prefix_app; now exists b).
    congruence.
Qed.

Lemma pour_lookup (b : string) (columns : list (string * Cell)) :
  ∀ d, foldl pour d columns !! b =
       match last (columnsNamed ("over" +:+ b) columns) with
       | Some column => Some (snd column)
       | None => d !! b
       end.
Proof.
  induction columns as [|[key value] rest IH]; intros d; [reflexivity|].
  cbn [foldl]. rewrite IH. unfold columnsNamed. cbn [List.filter fst].
  rewrite <- (bucket_of_column key b). unfold pour. cbn [fst snd].
  destruct (startsWith "over" key); cbn [andb].
  - destruct (String.eqb_spec (replace "over" EmptyString key) b) as [Heq|Hne].
    + rewrite last_cons.
      destruct (last (List.filter _ rest)); [reflexivity|].
      rewrite Heq. cbn [snd]. apply lookup_insert_eq.
    + destruct (last (List.filter _ rest)); [reflexivity|].
      now apply lookup_insert_ne.
  - reflexivity.
Qed.

Lemma addEntry_other (row : Row) (rule : string) (data : gmap string Entry)
    (column : string * Cell) :
  rule ≠ ruleOf row -> addEntry row data column !! rule = data !! rule.
Proof.
  intros Hne. destruct column as [key value]. unfold addEntry.
  destruct (startsWith "over" key); [rewrite lookup_alter_ne by congruence|];
    (destruct (data !! ruleOf row); [reflexivity|now apply lookup_insert_ne]).
Qed.

Lemma addEntry_own (row : Row) (data : gmap string Entry) (column : string * Cell) :
  addEntry row data column !! ruleOf row =
    Some {| count := match data !! ruleOf row with
                     | Some entry => count entry
                     | None => prop "count" row
                     end;
            distributions := pour match data !! ruleOf row with
                                  | Some entry => distributions entry
                                  | None => ∅
                                  end column |}.
Proof.
  destruct column as [key value]. unfold addEntry, pour. cbn [fst snd].
  destruct (startsWith "over" key); [rewrite lookup_alter_eq|];
    (destruct (data !! ruleOf row) as [[c d]|] eqn:Hdata;
     [rewrite Hdata|rewrite lookup_insert_eq]; reflexivity).
Qed.

Lemma row_other (row : Row) (rule : string) :
  rule ≠ ruleOf row ->
  ∀ columns data, foldl (addEntry row) data columns !! rule = data !! rule.
Proof.
  intros Hne. induction columns as [|column rest IH]; intros data; [reflexivity|].
  cbn [foldl]. rewrite IH. now apply addEntry_other.
Qed.

Lemma row_own (row : Row) :
  ∀ columns data entry,
    data !! ruleOf row = Some entry ->
    foldl (addEntry row) data columns !! ruleOf row =
      Some {| count := count entry; distributions := foldl pour (distributions entry) columns |}.
Proof.
  induction columns as [|column rest IH]; intros data entry Hdata.
  - cbn [foldl]. rewrite Hdata. now destruct entry.
  - cbn [foldl]. erewrite IH by apply addEntry_own. rewrite Hdata. reflexivity.
Qed.

(** What one row leaves at its own rule. *)
Lemma row_at_rule (row : Row) (data : gmap string Entry) :
  row ≠ [] ->
  foldl (addEntry row) data row !! ruleOf row =
    Some {| count := match data !! ruleOf row with
                     | Some entry => count entry
                     | None => prop "count" row
                     end;
            distributions := foldl pour match data !! ruleOf row with
                                        | Some entry => distributions entry
                                        | None => ∅
                                        end row |}.
Proof.
  intros Hne.
  assert (Hany : ∀ columns, columns ≠ [] ->
            foldl (addEntry row) data columns !! ruleOf row =
              Some {| count := match data !! ruleOf row with
                               | Some entry => count entry
                               | None => prop "count" row
                               end;
                      distributions := foldl pour match data !! ruleOf row with
                                                  | Some entry => distributions entry
                                                  | None => ∅
                                                  end columns |}).
  { intros [|column rest] Hcolumns; [congruence|]. cbn [foldl].
    erewrite row_own by apply addEntry_own. reflexivity. }
  now apply Hany.
Qed.

Lemma bears_spec (rule : string) (row : Row) :
  bears rule row = true ↔ row ≠ [] ∧ ruleOf row = rule.
Proof.
  destruct row as [|column columns]; cbn [bears].
  - split; [discriminate|intros [Hne _]; congruence].
  - rewrite String.eqb_eq. split; [intros Heq; split; [discriminate|exact Heq]|now intros [_ Heq]].
Qed.

Lemma row_not_bearing (rule : string) (row : Row) (data : gmap string Entry) :
  bears rule row = false -> foldl (addEntry row) data row !! rule = data !! rule.
Proof.
  intros Hb. destruct row as [|column columns] eqn:Hrow; [reflexivity|]. rewrite <- Hrow in *.
  apply row_other. intros ->. rewrite <- Bool.not_true_iff_false in Hb. apply Hb.
  apply bears_spec. split; [rewrite Hrow; discriminate|reflexivity].
Qed.

Lemma collect_counts (rule : string) (rows : list Row) :
  ∀ data,
    count <$> (foldl (fun data row => foldl (addEntry row) data row) data rows !! rule) =
      match data !! rule with
      | Some entry => Some (count entry)
      | None => prop "count" <$> head (rowsOf rule rows)
      end.
Proof.
  induction rows as [|row rest IH]; intros data.
  - cbn. now destruct (data !! rule).
  - cbn [foldl]. rewrite IH. unfold rowsOf. cbn [List.filter].
    destruct (bears rule row) eqn:Hb.
    + apply bears_spec in Hb as [Hne <-]. rewrite row_at_rule by exact Hne.
      now destruct (data !! ruleOf row).
    + now rewrite row_not_bearing.
Qed.

Lemma collect_buckets (rule b : string) (rows : list Row) :
  ∀ data,
    (foldl (fun data row => foldl (addEntry row) data row) data rows !! rule)
      ≫= (fun entry => distributions entry !! b) =
      match last (columnsNamed ("over" +:+ b) (concat (rowsOf rule rows))) with
      | Some column => Some (snd column)
      | None => (data !! rule) ≫= (fun entry => distributions entry !! b)
      end.
Proof.
  induction rows as [|row rest IH]; intros data; [reflexivity|].
  cbn [foldl]. rewrite IH. unfold rowsOf. cbn [List.filter].
  destruct (bears rule row) eqn:Hb.
  - apply bears_spec in Hb as [Hne <-].
    cbn [concat]. unfold columnsNamed. rewrite List.filter_app, last_app.
    destruct (last (List.filter _ (concat _))); [reflexivity|].
    rewrite row_at_rule by exact Hne.
    cbn [mbind option_bind distributions]. rewrite pour_lookup. unfold columnsNamed.
    destruct (last (List.filter _ row)); [reflexivity|].
    now destruct (data !! ruleOf row).
  - now rewrite row_not_bearing.
Qed.

(** X12: in the object of a rule, [count] is the count of the first row
    that bears the rule id, whatever later rows of that rule say; a rule
    is in the object if and only if a row bears its id. *)
Theorem collect_count_of_first_row (rows : list Row) (rule : string) :
  count <$> (collect rows !! rule) = prop "count" <$> head (rowsOf rule rows).
Proof.
  unfold collect. rewrite collect_counts. now rewrite lookup_empty.
Qed.

(** X13: the bucket [b] of a rule holds the value of the last column
    named [over] followed by [b] among the rows of that rule, and there is
    no such bucket when they have no such column: a later row of a rule
    adds to the buckets of an earlier one and replaces those it shares. *)
Theorem collect_bucket_of_last_column (rows : list Row) (rule b : string) :
  (collect rows !! rule) ≫= (fun entry => distributions entry !! b) =
    snd <$> last (columnsNamed ("over" +:+ b) (concat (rowsOf rule rows))).
Proof.
  unfold collect. rewrite collect_buckets. rewrite lookup_empty.
  now destruct (last _).
Qed.

Lemma rowsOf_single (row : Row) (rows : list Row) :
  NoDup (map ruleOf rows) -> row ∈ rows -> row ≠ [] -> rowsOf (ruleOf row) rows = [row].
Proof.
  intros Hnodup Hin Hne. induction rows as [|first rest IH]; [now apply elem_of_nil in Hin|].
  cbn [map] in Hnodup. apply NoDup_cons in Hnodup as [Hfresh Hrest].
  unfold rowsOf. cbn [List.filter].
  apply elem_of_cons in Hin as [<-|Hin].
  - assert (Hb : bears (ruleOf row) row = true) by now apply bears_spec.
    rewrite Hb. f_equal.
    clear IH Hrest. induction rest as [|other rest IH]; [reflexivity|].
    cbn [List.filter]. cbn [map] in Hfresh.
    rewrite not_elem_of_cons in Hfresh. destruct Hfresh as [Hother Hfresh].
    destruct (bears (ruleOf row) other) eqn:Ho; [|now apply IH].
    apply bears_spec in Ho as [_ Ho]. congruence.
  - destruct (bears (ruleOf row) first) eqn:Hb; [|now apply IH].
    apply bears_spec in Hb as [_ Heq].
    exfalso. apply Hfresh. rewrite Heq. apply list_elem_of_fmap. now exists row.
Qed.

Lemma last_column_is_prop (name : string) (row : Row) :
  NoDup (map fst row) -> snd <$> last (columnsNamed name row) = prop name row.
Proof.
  unfold prop, columnsNamed. induction row as [|[key value] rest IH]; [reflexivity|].
  cbn [map fst]. intros Hnodup. apply NoDup_cons in Hnodup as [Hfresh Hrest].
  cbn [List.filter List.find fst].
  destruct (String.eqb_spec key name) as [->|Hne]; [|now apply IH].
  assert (Hnone : List.filter (fun column => String.eqb (fst column) name) rest = []).
  { clear -Hfresh. induction rest as [|[k v] rest IH]; [reflexivity|].
    cbn [map fst] in Hfresh. rewrite not_elem_of_cons in Hfresh. destruct Hfresh as [Hk Hrest].
    cbn [List.filter fst]. destruct (String.eqb_spec k name); [congruence|now apply IH]. }
  rewrite Hnone. reflexivity.
Qed.

(** X14: when no two rows bear the same rule id and no row names a
    column twice, as the query with its [GROUP by rule_id] answers, the
    object of a row's rule has the count of that row and, for every [b],
    the value of the row's column [over] followed by [b] as bucket [b];
    the columns [count] and [rule_id] make no bucket. *)
Theorem collect_one_row_per_rule (rows : list Row) (row : Row) :
  NoDup (map ruleOf rows) ->
  row ∈ rows ->
  row ≠ [] ->
  NoDup (map fst row) ->
  ∃ entry,
    collect rows !! ruleOf row = Some entry
    ∧ count entry = prop "count" row
    ∧ ∀ b, distributions entry !! b = prop ("over" +:+ b) row.
Proof.
  intros Hrules Hin Hne Hcolumns.
  pose proof (collect_counts (ruleOf row) rows ∅) as Hcount.
  rewrite lookup_empty, (rowsOf_single row rows Hrules Hin Hne) in Hcount.
  change (foldl _ ∅ rows) with (collect rows) in Hcount.
  destruct (collect rows !! ruleOf row) as [entry|] eqn:Hentry; [|discriminate].
  exists entry. split; [reflexivity|]. split; [now injection Hcount|].
  intros b.
  pose proof (collect_buckets (ruleOf row) b rows ∅) as Hbucket.
  rewrite lookup_empty, (rowsOf_single row rows Hrules Hin Hne) in Hbucket.
  change (foldl _ ∅ rows) with (collect rows) in Hbucket.
  rewrite Hentry in Hbucket. cbn [mbind option_bind concat] in Hbucket.
  rewrite app_nil_r in Hbucket. rewrite Hbucket.
  rewrite <- (last_column_is_prop _ row Hcolumns).
  now destruct (last _).
Qed.

End DistributionsProps.

(** X14 on the sample: the object of tower control. *)
Lemma collect_one_row_per_rule_witness :
  ∃ entry,
    Distributions.collect [MoreSamples.splatZones; MoreSamples.towerControl] !! "2" = Some entry
    ∧ Distributions.count entry = Some (Distributions.CStr "4875")
    ∧ Distributions.distributions entry !! "2610" = Some (Distributions.CStr "4102")
    ∧ Distributions.distributions entry !! "count" = None.
Proof.
  destruct (collect_one_row_per_rule
              [MoreSamples.splatZones; MoreSamples.towerControl] MoreSamples.towerControl)
    as (entry & Hentry & Hcount & Hbuckets).
  - apply (bool_decide_unpack _). vm_compute. exact I.
  - apply elem_of_cons. right. apply list_elem_of_here.
  - discriminate.
  - apply (bool_decide_unpack _). vm_compute. exact I.
  - exists entry. split; [exact Hentry|]. split; [exact Hcount|].
    split; [exact (Hbuckets "2610")|exact (Hbuckets "count")].
Defined.

(** ** The weapon routes *)

Lemma year_length (y : Z) :
  DayFromYear (y + 1) = DayFromYear y + 365 + (if isLeapYear y then 1 else 0).
Proof.
  unfold DayFromYear, isLeapYear.
  destruct (Z.eqb_spec (y mod 4) 0), (Z.eqb_spec (y mod 100) 0), (Z.eqb_spec (y mod 400) 0);
    cbn [andb orb negb]; Z.div_mod_to_equations; lia.
Qed.

Lemma time_in_days (t : time) (first next : Z) :
  first * msPerDay <= t < next * msPerDay ↔ first <= Day t < next.
Proof. unfold Day, msPerDay. split; intros H; Z.div_mod_to_equations; lia. Qed.

Ltac by_month m :=
  destruct m as [|?p|?p]; [| |lia];
  repeat match goal with p : positive |- _ => destruct p as [p|p|]; try lia end.

Ltac reduce_month H :=
  repeat match type of H with
         | context [DayFromMonth (?m + 1) _] =>
             let next := eval vm_compute in (m + 1) in change (m + 1) with next in H
         end;
  cbn [Z.eqb Pos.eqb DayFromMonth] in H.

(** The days of a month of a year. *)
Lemma month_in_days (y m : Z) (t : time) :
  0 <= m <= 11 ->
  let leap := if isLeapYear y then 1 else 0 in
  (DayFromYear y + DayFromMonth m leap <= Day t
   ∧ Day t < (if m =? 11 then DayFromYear (y + 1) else DayFromYear y + DayFromMonth (m + 1) leap))
  ↔ YearFromTime t = y ∧ MonthFromTime t = m.
Proof.
  intros Hm leap. pose proof (year_length y) as Hlen. fold leap in Hlen.
  assert (Hleap : 0 <= leap <= 1) by (subst leap; destruct (isLeapYear y); lia).
  split.
  - intros [Hlo Hhi].
    assert (Hy : y = YearFromTime t).
    { apply YearFromTime_unique. rewrite Hlen. by_month m; reduce_month Hlo; reduce_month Hhi; lia. }
    split; [now symmetry|].
    unfold MonthFromTime, InLeapYear, DayWithinYear. rewrite <- Hy. fold leap. cbv zeta.
    by_month m; reduce_month Hlo; reduce_month Hhi;
      repeat match goal with |- context [?a <? ?b] => destruct (Z.ltb_spec a b) end; lia.
  - intros [Hy Hmonth]. pose proof (YearFromTime_spec t) as Hspec.
    rewrite Hy, Hlen in Hspec.
    unfold MonthFromTime, InLeapYear, DayWithinYear in Hmonth. rewrite Hy in Hmonth.
    fold leap in Hmonth. cbv zeta in Hmonth. rewrite Hlen.
    repeat match type of Hmonth with context [?a <? ?b] => destruct (Z.ltb_spec a b) end;
      subst m;
      repeat match goal with
             | |- context [DayFromMonth (?m + 1) _] =>
                 let next := eval vm_compute in (m + 1) in change (m + 1) with next
             end;
      cbn [Z.eqb Pos.eqb DayFromMonth]; lia.
Qed.

(** From the first instant of a month up to that of the month after. *)
Lemma month_window (y m : Z) (t : time) :
  0 <= m <= 11 ->
  valueOf (moment_utc_of y m) <= t < valueOf (add_months 1 (moment_utc_of y m))
  ↔ YearFromTime t = y ∧ MonthFromTime t = m.
Proof.
  intros Hm. rewrite <- (month_in_days y m t) by exact Hm. cbv zeta.
  unfold valueOf, add_months, subtract_months, moment_utc_of, daysInMonth.
  cbn [year month date msOfDay].
  replace (m - Z.opp 1) with (m + 1) by lia.
  assert (Hmin : ∀ days, 28 <= days -> Z.min 1 days = 1) by (intros; lia).
  rewrite Hmin.
  2:{ destruct ((m + 1) mod 12 =? 1); [destruct (isLeapYear _); lia|].
      pose proof (Z.mod_pos_bound (((m + 1) mod 12) mod 7) 2). lia. }
  set (leap := if isLeapYear y then 1 else 0).
  replace (DayFromYear y + DayFromMonth m leap + 1 - 1)
    with (DayFromYear y + DayFromMonth m leap) by lia.
  rewrite !Z.add_0_r.
  destruct (Z.eqb_spec m 11) as [->|H11].
  - change ((11 + 1) / 12) with 1. change ((11 + 1) mod 12) with 0. cbn [DayFromMonth].
    replace (DayFromYear (y + 1) + 0 + 1 - 1) with (DayFromYear (y + 1)) by lia.
    rewrite time_in_days. tauto.
  - replace ((m + 1) / 12) with 0 by (symmetry; apply Z.div_small; lia).
    replace ((m + 1) mod 12) with (m + 1) by (symmetry; apply Z.mod_small; lia).
    rewrite Z.add_0_r. fold leap.
    replace (DayFromYear y + DayFromMonth (m + 1) leap + 1 - 1)
      with (DayFromYear y + DayFromMonth (m + 1) leap) by lia.
    rewrite time_in_days. tauto.
Qed.

Section WeaponRoutes.

Import Distributions Weapons.

Variable dateToSqlTimestamp : time -> string.
Variable findRuleId : string -> Z.
Variable queryWeaponRanking : RankingQuery -> Settled (list Row).
Variable queryWeaponUsageDifference : UsageQuery -> Settled (list Row).
Variable parseMonth : option string -> option time.

(** X15: for a month of 1 to 12, the popularity callback sends one query,
    whose start and end are the timestamps of two instants that enclose
    the requested calendar month and nothing else: an instant lies from
    the first on and before the second exactly when its UTC year and
    month are the requested ones (December runs up to the January of the
    next year). *)
Theorem weapon_popularity_month_window (rankingType weaponType : string) (year month : Z)
    (rule : option string) :
  1 <= month <= 12 ->
  ∃ query first next,
    fst (weaponPopularityRouterCallback dateToSqlTimestamp findRuleId queryWeaponRanking
           rankingType weaponType year month rule) = [query]
    ∧ startTime query = dateToSqlTimestamp first
    ∧ endTime query = dateToSqlTimestamp next
    ∧ ∀ t, first <= t < next ↔ YearFromTime t = year ∧ MonthFromTime t + 1 = month.
Proof.
  intros Hmonth.
  eexists _, (valueOf (moment_utc_of year (month - 1))),
    (valueOf (add_months 1 (moment_utc_of year (month - 1)))).
  split; [reflexivity|]. split; [reflexivity|]. split; [reflexivity|].
  intros t.
  assert (Hiff : YearFromTime t = year ∧ MonthFromTime t + 1 = month
                 ↔ YearFromTime t = year ∧ MonthFromTime t = month - 1)
    by (split; intros [? ?]; split; lia).
  rewrite Hiff. apply month_window. lia.
Qed.

(** X16: the trend callback answers 404 only to a result whose first row
    has the number 0 as [current_month_count]; to a result without rows it
    answers 500, with the type error of reading the first row, and to
    dates that do not parse or are not in order it answers 422 without a
    query. *)
Theorem weapon_trend_answers (rankingType weaponType : string) (rule previous_month
    current_month : option string) :
  let run := weaponTrendRouterCallback findRuleId queryWeaponUsageDifference parseMonth
               rankingType weaponType rule previous_month current_month in
  (snd run = SendStatus 404 ↔
     ∃ query first more,
       fst run = [query]
       ∧ queryWeaponUsageDifference query = Fulfilled (first :: more)
       ∧ prop "current_month_count" first = Some (CNum 0))
  ∧ (∀ query, fst run = [query] ->
       queryWeaponUsageDifference query = Fulfilled [] ->
       snd run = StatusSend 500 (Thrown (OtherError "TypeError")))
  ∧ (fst run = [] ↔ snd run = StatusSend 422 (Text "Invalid date(s).")).
Proof.
  cbv zeta. unfold weaponTrendRouterCallback.
  destruct (parseMonth previous_month) as [p|], (parseMonth current_month) as [c|];
    try destruct (p <? c); cbn [fst snd];
    try (split; [split; [discriminate|intros (? & ? & ? & ? & _); discriminate]|];
         split; [discriminate|split; reflexivity]).
  set (query := {| usage_rankingType := rankingType |}).
  split; [|split].
  - destruct (queryWeaponUsageDifference query) as [[|first more]|e] eqn:Hq; cbn.
    + split; [discriminate|]. intros (q & f & m & Hfst & Hrows & _).
      injection Hfst as <-. congruence.
    + destruct (prop "current_month_count" first) as [[|[| |]|]|] eqn:Hcount;
        (split; [try discriminate; intros _; exists query, first, more; repeat split; assumption|]);
        intros (q & f & m & Hfst & Hrows & Hzero); injection Hfst as <-;
        rewrite Hq in Hrows; injection Hrows as <- <-; try reflexivity; congruence.
    + split; [discriminate|]. intros (q & f & m & Hfst & Hrows & _).
      injection Hfst as <-. congruence.
  - intros q Hfst Hrows. injection Hfst as <-. rewrite Hrows. reflexivity.
  - split; [discriminate|].
    destruct (queryWeaponUsageDifference query) as [rows|e]; [|discriminate].
    destruct (firstCountIsZero rows) as [[|]|]; discriminate.
Qed.

End WeaponRoutes.

(** X15 on a sample: the window of February 2020, a leap year. *)
Lemma weapon_popularity_month_window_witness :
  ∃ query first next,
    fst (Weapons.weaponPopularityRouterCallback pretty (fun _ => 1) (fun _ => Fulfilled [])
           "x" "weapons" 2020 2 None) = [query]
    ∧ Weapons.startTime query = "1580515200000"
    ∧ Weapons.endTime query = "1583020800000"
    ∧ first <= 1583020799999 < next.
Proof.
  destruct (weapon_popularity_month_window pretty (fun _ => 1) (fun _ => Fulfilled [])
              "x" "weapons" 2020 2 None) as (query & first & next & Hq & Hs & He & Hwin);
    [lia|].
  exists query, first, next. split; [exact Hq|].
  injection Hq as <-. split; [reflexivity|]. split; [reflexivity|].
  apply Hwin. vm_compute. split; reflexivity.
Defined.

(** X16 on a sample: two months in order and a result without rows. *)
Lemma weapon_trend_answers_witness :
  snd (Weapons.weaponTrendRouterCallback (fun _ => 1) (fun _ => Fulfilled [])
         MoreSamples.monthOf "x" "weapons" None (Some "2019-12") (Some "2020-01"))
  = Weapons.StatusSend 500 (Weapons.Thrown (OtherError "TypeError")).
Proof.
  destruct (weapon_trend_answers (fun _ => 1) (fun _ => Fulfilled []) MoreSamples.monthOf
              "x" "weapons" None (Some "2019-12") (Some "2020-01")) as (_ & Hempty & _).
  exact (Hempty _ eq_refl eq_refl).
Defined.

(** ** The league route of the earlier API *)

(** X17: for the types [specials] and [subs] the earlier API binds the
    month to the placeholder of the year and the year to that of the
    month, so for a month of 1 to 12 its query counts no row that starts
    in 1970 or later, whatever year is asked for; for [weapons] it counts
    the rows of the requested year and month. *)
Theorem earlier_api_bindings_swapped (type : EarlierApi.WeaponKind) (year month : Z)
    (start_times : list time) :
  1 <= month <= 12 ->
  Forall (fun start_time => 0 <= start_time) start_times ->
  EarlierApi.counted type year month start_times =
    match type with
    | EarlierApi.weapons =>
        List.filter (fun start_time => (YearFromTime start_time =? year)
                                       && (MonthFromTime start_time + 1 =? month)) start_times
    | _ => []
    end.
Proof.
  intros Hmonth Hpos. unfold EarlierApi.counted.
  destruct type; cbn [EarlierApi.bindings EarlierApi.selected]; [reflexivity| |];
    (induction Hpos as [|start_time rest Hstart _ IH]; [reflexivity|];
     cbn [List.filter EarlierApi.selected];
     destruct (Z.eqb_spec (YearFromTime start_time) month) as [Hy|_]; [|exact IH];
     exfalso; pose proof (YearFromTime_spec start_time) as Hspec;
     assert (Hday : 0 <= Day start_time)
       by (unfold Day, msPerDay; Z.div_mod_to_equations; lia);
     assert (Hlate : DayFromYear (YearFromTime start_time + 1) <= DayFromYear 1970)
       by (apply DayFromYear_mono; lia);
     change (DayFromYear 1970) with 0 in Hlate; lia).
Qed.

(** X17 on a sample: the snapshot of December 2019 is counted for the
    weapons of 2019/12 and not for the specials. *)
Lemma earlier_api_bindings_swapped_witness :
  EarlierApi.counted EarlierApi.weapons 2019 12 [Samples.dec01; Samples.jan01] = [Samples.dec01]
  ∧ EarlierApi.counted EarlierApi.specials 2019 12 [Samples.dec01; Samples.jan01] = [].
Proof.
  split.
  - rewrite (earlier_api_bindings_swapped EarlierApi.weapons 2019 12
               [Samples.dec01; Samples.jan01]); [reflexivity|lia|].
    repeat constructor; vm_compute; discriminate.
  - apply (earlier_api_bindings_swapped EarlierApi.specials 2019 12
             [Samples.dec01; Samples.jan01]); [lia|].
    repeat constructor; vm_compute; discriminate.
Defined.
